(** * CiRL ODE scripts: incinerator, microalgae (Droop) and transport truck

    A shallow embedding of the three scripts
    [Incinerator_odeint.py], [MicroalgaeDroop_odeint.py] and
    [Truck_odeint.py], and the properties of their derivative functions,
    reporting meshes and solver calls.

    The scripts compute with Python ints and NumPy float64 values.  The
    derivative functions are written once, over an abstract scalar type,
    and read at two instances: the real numbers (the mathematical vector
    field, for the statements about exact solutions) and binary64
    floating point (the values the interpreter computes). *)

From Stdlib Require Import Reals Lra Lia ZArith String List Bool.
From Stdlib Require Import Floats.PrimFloat Numbers.Cyclic.Int63.Uint63.
Import ListNotations.
Open Scope string_scope.
Open Scope list_scope.

(** ** Scalars: the arithmetic the scripts use *)

Module Py.

(** The operators that occur in the three scripts: [+], binary and unary
    [-], [*], true division [/], and the conversion of an integer
    literal. *)
Class Scalar (A : Type) : Type := {
  nadd : A -> A -> A;
  nsub : A -> A -> A;
  nmul : A -> A -> A;
  ndiv : A -> A -> A;
  nneg : A -> A;
  of_Z : Z -> A
}.

Declare Scope num_scope.
Delimit Scope num_scope with num.
Infix "+" := nadd : num_scope.
Infix "-" := nsub : num_scope.
Infix "*" := nmul : num_scope.
Infix "/" := ndiv : num_scope.
Notation "- x" := (nneg x) : num_scope.

Section Literals.
Context {A : Type} `{Scalar A}.

(** An integer literal such as [100]. *)
Definition int (z : Z) : A := of_Z z.

(** A decimal literal with [e] digits after the point, such as [1.7]
    ([decimal 17 1]) or [2.82] ([decimal 282 2]).  Both operands of the
    division are represented exactly, so at binary64 the correctly
    rounded quotient is the double nearest to the decimal, which is the
    value Python gives the literal. *)
Definition decimal (m : Z) (e : nat) : A :=
  (of_Z m / of_Z (10 ^ Z.of_nat e))%num.

(** [x ** 2] *)
Definition sqr (x : A) : A := (x * x)%num.

Definition of_nat (n : nat) : A := of_Z (Z.of_nat n).
End Literals.

(** Real numbers: exact arithmetic. *)
#[export] Instance R_scalar : Scalar R := {|
  nadd := Rplus; nsub := Rminus; nmul := Rmult; ndiv := Rdiv;
  nneg := Ropp; of_Z := IZR
|}.

(** binary64: the arithmetic of Python floats and NumPy float64, round to
    nearest even, with infinities and NaN instead of exceptions (NumPy
    scalars only warn on a division by zero).  The integer literals of the
    scripts are far below [2^53], so their conversion is exact. *)
Definition float_of_Z (z : Z) : float :=
  if (z <? 0)%Z
  then PrimFloat.opp (PrimFloat.of_uint63 (Uint63.of_Z (- z)))
  else PrimFloat.of_uint63 (Uint63.of_Z z).

#[export] Instance float_scalar : Scalar float := {|
  nadd := PrimFloat.add; nsub := PrimFloat.sub; nmul := PrimFloat.mul;
  ndiv := PrimFloat.div; nneg := PrimFloat.opp; of_Z := float_of_Z
|}.

(** A float is finite when it is neither an infinity nor NaN. *)
Definition is_finite (x : float) : bool :=
  negb (PrimFloat.is_nan x) && negb (PrimFloat.is_infinity x).

(** Subscripting [X[i]] with a literal index [i >= 0]: [None] stands for
    the [IndexError] that an index past the end raises. *)
Definition getitem {A : Type} (X : list A) (i : nat) : option A :=
  nth_error X i.

Definition bind {A B : Type} (m : option A) (k : A -> option B) : option B :=
  match m with
  | Some a => k a
  | None => None
  end.

End Py.

Import Py.

Notation "X .[ i ]" := (getitem X i) (at level 1, format "X .[ i ]").
Notation "'let?' x ':=' m 'in' k" := (bind m (fun x => k))
  (at level 10, x name, m at level 100, k at level 200).

(** ** NumPy: the array operations the scripts call *)

Module Numpy.
Section Arrays.
Context {A : Type} `{Scalar A}.
Local Open Scope num_scope.

(** [np.linspace(start, stop, num)] with the default [endpoint=True]: the
    samples [arange(0, num) * step + start] with
    [step = (stop - start) / (num - 1)], the last one then overwritten with
    [stop].  (When [step] is zero NumPy computes
    [(arange(0, num) / (num - 1)) * (stop - start) + start] instead, which
    gives the same values.) *)
Definition linspace (start stop : A) (num : nat) : list A :=
  match num with
  | O => []
  | S O => [start]
  | S div =>
      let step := (stop - start) / of_nat div in
      map (fun i => of_nat i * step + start) (seq 0 div) ++ [stop]
  end.

(** Column [j] of a two-dimensional array given by its rows. *)
Definition column (j : nat) (X : list (list A)) : list A :=
  map (fun row => nth j row (int 0)) X.

(** [X.T] for a two-dimensional array: row [j] of the result is column [j]
    of [X].  An ndarray is rectangular, so the number of columns is read
    off the first row. *)
Definition transpose (X : list (list A)) : list (list A) :=
  match X with
  | [] => []
  | row :: _ => map (fun j => column j X) (seq 0 (length row))
  end.

(** Elementwise operations on one-dimensional arrays of equal length, and
    their broadcast against a scalar. *)
Fixpoint map2 (op : A -> A -> A) (u v : list A) : list A :=
  match u, v with
  | a :: u', b :: v' => op a b :: map2 op u' v'
  | _, _ => []
  end.

Definition array_add (u v : list A) : list A := map2 nadd u v.
Definition array_mul (u v : list A) : list A := map2 nmul u v.
Definition array_div (u v : list A) : list A := map2 ndiv u v.
Definition scalar_mul (c : A) (u : list A) : list A := map (nmul c) u.
Definition add_scalar (u : list A) (c : A) : list A := map (fun a => a + c) u.

End Arrays.
End Numpy.

(** ** SciPy and Matplotlib: the interface the scripts rely on *)

Module Runtime.

(** A statement either raises (the name of the exception class is kept) or
    completes with a value. *)
Inductive outcome (T : Type) : Type :=
| Raise (e : string)
| Return (v : T).
Arguments Raise {T} e.
Arguments Return {T} v.

Definition obind {T U : Type} (m : outcome T) (k : T -> outcome U) : outcome U :=
  match m with
  | Raise e => Raise e
  | Return v => k v
  end.

Definition is_return {T : Type} (m : outcome T) : bool :=
  match m with
  | Raise _ => false
  | Return _ => true
  end.

(** The second component of what [integrate.odeint] returns under
    [full_output=True]; of its entries only the status message matters
    here. *)
Record infodict : Type := { message : string }.

Definition msg_success : string := "Integration successful.".
Definition msg_excess_work : string :=
  "Excess work done on this call (perhaps wrong Dfun type).".

Section Solver.
Variable A : Type.

(** A derivative function [func(y, t)]. *)
Definition rhs : Type := list A -> A -> option (list A).

(** [integrate.odeint(func, y0, t, mxstep=..., full_output=True)]: the
    call either raises or returns the pair of the trajectory (one row per
    entry of [t]) and the [infodict]. *)
Definition odeint_type : Type :=
  rhs -> list A -> list A -> Z -> outcome (list (list A) * infodict).

(** One line series of a figure: what [plt.plot(t, y, ...)] draws. *)
Definition series : Type := (list A * list A)%type.

(** [plt.plot(x, y)] refuses data of different lengths. *)
Definition plot (x y : list A) : outcome series :=
  if Nat.eqb (length x) (length y) then Return (x, y) else Raise "ValueError".

End Solver.
Arguments plot {A} x y.
End Runtime.

Import Runtime.

Notation "'do' x '<-' m ';' k" := (obind m (fun x => k))
  (at level 10, x name, m at level 100, k at level 200).

(** ** Transport truck ([Truck_odeint.py]) *)

Module TransportTruck.
Import Numpy.
Section Model.
Context {A : Type} `{Scalar A}.
Local Open Scope num_scope.

(** Simulation time *)
Definition t_final : A := int 15.

(** Model parameters *)
Definition m_truck : A := int 3000.
Definition m_u : A := int 210.
Definition m_total : A := m_truck + m_u.

(** Initial conditions *)
Definition position_ini : A := int 0.
Definition speed_ini : A := int 4.
Definition X_ini : list A := [position_ini; speed_ini].

(** Inputs *)
Definition F : A := int 4000.

(** Equations in state space form.  The time argument is accepted and
    not used. *)
Definition transportTruck (X : list A) (t : A) : option (list A) :=
  let? X1 := X.[1] in
  Some [X1; F / m_total].

(** Numerical solution.  The simulation time is a setting of the script;
    the stages below take it as [horizon], and the script runs them at
    [t_final]. *)
Variable odeint : odeint_type A.

(** [t = np.linspace(0, t_final, 1000)] *)
Definition mesh (horizon : A) : list A := linspace (int 0) horizon 1000.

(** [integrate.odeint(transportTruck, X_ini, t, mxstep = 1000,
    full_output = True)] *)
Definition numerical_solution (horizon : A)
  : outcome (list (list A) * infodict) :=
  odeint transportTruck X_ini (mesh horizon) 1000%Z.

(** [position, speed = X.T] and the two figures. *)
Definition plots (t : list A) (X : list (list A)) : outcome (list (series A)) :=
  match transpose X with
  | [position; speed] =>
      do fig1 <- plot t position;
      do fig2 <- plot t speed;
      Return [fig1; fig2]
  | _ => Raise "ValueError"
  end.

Definition run (horizon : A) : outcome (list (series A)) :=
  do r <- numerical_solution horizon;
  plots (mesh horizon) (fst r).

Definition script : outcome (list (series A)) := run t_final.

End Model.
End TransportTruck.

(** ** Microalgae, Droop's model ([MicroalgaeDroop_odeint.py]) *)

Module MicroalgaeDroop.
Import Numpy.
Section Model.
Context {A : Type} `{Scalar A}.
Local Open Scope num_scope.

(** Simulation time *)
Definition t_final : A := int 15.

(** Model parameters *)
Definition K_sI : A := int 0.
Definition K_iI : A := int 295.
Definition mu_tilde : A := decimal 17 1.
Definition k_q : A := decimal 17 1.
Definition K_S : A := decimal 1 1.
Definition rho_max : A := decimal 940 2.
Definition T_h : A := int 1 / decimal 45 2.
Definition S_in : A := int 100.
Definition K_CO2 : A := decimal 3 1.

(** Initial conditions *)
Definition I_bar : A := int 50.
Definition X_ALG_ini : A := int 26.
Definition Q_ini : A := decimal 282 2.
Definition S_ini : A := int 0.
Definition X_ini : list A := [X_ALG_ini; Q_ini; S_ini].

(** Inputs *)
Definition I : A := I_bar.

(** The two rates computed at the head of [microalgaeDroop]: the growth
    rate [mu] from the internal quota [X[1]] and the uptake rate [rho]
    from the substrate [X[2]]. *)
Definition mu (X1 : A) : A :=
  mu_tilde * (I / (I + K_sI + (sqr I / K_iI))) * (int 1 - k_q / X1).

Definition rho (X2 : A) : A := rho_max * (X2 / (X2 + K_S)).

(** Equations in state space form.  The time argument is accepted and
    not used. *)
Definition microalgaeDroop (X : list A) (t : A) : option (list A) :=
  let? X1 := X.[1] in
  let mu := mu X1 in
  let? X2 := X.[2] in
  let rho := rho X2 in
  let? X0 := X.[0] in
  Some [mu * X0 - (int 1 / T_h) * X0;
        rho - mu * X1;
        (int 1 / T_h) * (S_in - X2) - rho * X0].

(** Numerical solution *)
Variable odeint : odeint_type A.

(** [t = np.linspace(0, t_final, 1000)] *)
Definition mesh (horizon : A) : list A := linspace (int 0) horizon 1000.

Definition numerical_solution (horizon : A)
  : outcome (list (list A) * infodict) :=
  odeint microalgaeDroop X_ini (mesh horizon) 1000%Z.

(** Absorption of CO2: [rho = rho_max*(S/(S+K_S))] on the solved substrate
    series, and [m_dot23 = K_CO2*rho]. *)
Definition rho_series (S : list A) : list A :=
  scalar_mul rho_max (array_div S (add_scalar S K_S)).

Definition m_dot23 (S : list A) : list A := scalar_mul K_CO2 (rho_series S).

(** The debugging variable [S+X_ALG*Q]. *)
Definition debugging_variable (X_ALG Q S : list A) : list A :=
  array_add S (array_mul X_ALG Q).

(** [X_ALG, Q, S = X.T] and the five figures ([S] is written [S'], the
    name [S] being taken). *)
Definition plots (t : list A) (X : list (list A)) : outcome (list (series A)) :=
  match transpose X with
  | [X_ALG; Q; S'] =>
      do fig1 <- plot t X_ALG;
      do fig2 <- plot t Q;
      do fig3 <- plot t S';
      do fig4 <- plot t (m_dot23 S');
      do fig5 <- plot t (debugging_variable X_ALG Q S');
      Return [fig1; fig2; fig3; fig4; fig5]
  | _ => Raise "ValueError"
  end.

Definition run (horizon : A) : outcome (list (series A)) :=
  do r <- numerical_solution horizon;
  plots (mesh horizon) (fst r).

Definition script : outcome (list (series A)) := run t_final.

End Model.
End MicroalgaeDroop.

(** ** Incinerator ([Incinerator_odeint.py]) *)

Module Incinerator.
Import Numpy.

(** The model parameters, initial conditions and input are integer
    literals bound to module-level names, one assignment after the other.
    The name [c_p_m] is bound twice, so the bindings are kept as the
    statements of the module in source order and executed into a
    namespace. *)
Definition assignments : list (string * Z) :=
  [ (* For eq. 1 *)
    ("F_in", 100); ("F_out", 10); ("R_w", 70);
    (* For eq. 2 *)
    ("F_char_out", 2); ("P_char", 6); ("R_char", 3);
    (* For eq. 3 *)
    ("c_p_w", 1); ("F_aI", 5); ("c_p_g", 5); ("T_aI", 20); ("Q", 100);
    ("c_p_char", 1); ("c_p_m", 25); ("M_grate", 500);
    (* For eq. 4 *)
    ("F_g_w_out", 2); ("R_g", 1);
    (* For eq. 5 *)
    ("F_g_out", 2); ("F_aII", 3);
    (* For eq. 6 *)
    ("c_p_m", 5); ("M_f_b", 120); ("T_aII", 20); ("Q_g", 450);
    (* Initial conditions *)
    ("M_ini", 0); ("M_char_ini", 0); ("T_w_ini", 20); ("M_g_w_ini", 0);
    ("M_g_f_ini", 0); ("T_g_ini", 20);
    (* Inputs *)
    ("Q_ext", 40) ]%Z.

Definition namespace : Type := string -> option Z.

(** [name = value] rebinds [name] and leaves every other name alone. *)
Definition assign (ns : namespace) (stmt : string * Z) : namespace :=
  fun x => if String.eqb x (fst stmt) then Some (snd stmt) else ns x.

Definition exec (ns : namespace) (stmts : list (string * Z)) : namespace :=
  fold_left assign stmts ns.

(** The module namespace once the module body has run; [incinerator] is
    only called after that, from the solver, and a function looks its
    global names up when it is called. *)
Definition globals : namespace := exec (fun _ => None) assignments.

(** The value of a global name (every name read below is bound, see
    [names_bound]). *)
Definition global (x : string) : Z :=
  match globals x with
  | Some v => v
  | None => 0%Z
  end.

Definition names : list string := map fst assignments.

Section Model.
Context {A : Type} `{Scalar A}.
Local Open Scope num_scope.

(** Simulation time, in minutes *)
Definition t_final : A := int 3 * int 60.

(** Model parameters *)
Definition F_in : A := int (global "F_in").
Definition F_out : A := int (global "F_out").
Definition R_w : A := int (global "R_w").
Definition F_char_out : A := int (global "F_char_out").
Definition P_char : A := int (global "P_char").
Definition R_char : A := int (global "R_char").
Definition c_p_w : A := int (global "c_p_w").
Definition F_aI : A := int (global "F_aI").
Definition c_p_g : A := int (global "c_p_g").
Definition T_aI : A := int (global "T_aI").
Definition Q : A := int (global "Q").
Definition c_p_char : A := int (global "c_p_char").
Definition c_p_m : A := int (global "c_p_m").
Definition M_grate : A := int (global "M_grate").
Definition F_g_w_out : A := int (global "F_g_w_out").
Definition R_g : A := int (global "R_g").
Definition F_g_out : A := int (global "F_g_out").
Definition F_aII : A := int (global "F_aII").
Definition M_f_b : A := int (global "M_f_b").
Definition T_aII : A := int (global "T_aII").
Definition Q_g : A := int (global "Q_g").

(** Initial conditions *)
Definition M_ini : A := int (global "M_ini").
Definition M_char_ini : A := int (global "M_char_ini").
Definition T_w_ini : A := int (global "T_w_ini").
Definition M_g_w_ini : A := int (global "M_g_w_ini").
Definition M_g_f_ini : A := int (global "M_g_f_ini").
Definition T_g_ini : A := int (global "T_g_ini").
Definition X_ini : list A :=
  [M_ini; M_char_ini; T_w_ini; M_g_w_ini; M_g_f_ini; T_g_ini].

(** Inputs *)
Definition Q_ext : A := int (global "Q_ext").

(** The denominators of the two energy balances, as [incinerator] writes
    them: the heat capacity of the wastebed (waste, char and grate) and
    that of the freeboard (gas and walls). *)
Definition wastebed_heat_capacity (X0 X1 : A) : A :=
  c_p_w * X0 + c_p_char * X1 + c_p_m * M_grate.

Definition freeboard_heat_capacity (X4 : A) : A :=
  c_p_g * X4 + c_p_m * M_f_b.

(** Equations in state space form.  The time argument is accepted and
    not used. *)
Definition incinerator (X : list A) (t : A) : option (list A) :=
  let? X2 := X.[2] in
  let? X0 := X.[0] in
  let? X1 := X.[1] in
  let? X5 := X.[5] in
  let? X4 := X.[4] in
  Some [F_in - F_out - R_w;
        - F_char_out + P_char - R_char;
        (F_in * c_p_w * X2 + F_aI * c_p_g * (T_aI - X2) + Q)
          / wastebed_heat_capacity X0 X1;
        F_aI - F_g_w_out + R_g;
        F_g_w_out - F_g_out + F_aII;
        (F_g_w_out * c_p_g * (X2 - X5) + F_aII * c_p_g * (T_aII - X5)
           + Q_g - Q_ext)
          / freeboard_heat_capacity X4].

(** Numerical solution *)
Variable odeint : odeint_type A.

(** [t = np.linspace(0, t_final, 1000)] *)
Definition mesh (horizon : A) : list A := linspace (int 0) horizon 1000.

Definition numerical_solution (horizon : A)
  : outcome (list (list A) * infodict) :=
  odeint incinerator X_ini (mesh horizon) 1000%Z.

(** [waste_mass, char_mass, wastebed_temp, gas_mass_wastebed,
    gas_mass_freeboard, gas_temp_freeboard = X.T] and the six figures. *)
Definition plots (t : list A) (X : list (list A)) : outcome (list (series A)) :=
  match transpose X with
  | [waste_mass; char_mass; wastebed_temp; gas_mass_wastebed;
     gas_mass_freeboard; gas_temp_freeboard] =>
      do fig1 <- plot t waste_mass;
      do fig2 <- plot t char_mass;
      do fig3 <- plot t wastebed_temp;
      do fig4 <- plot t gas_mass_wastebed;
      do fig5 <- plot t gas_mass_freeboard;
      do fig6 <- plot t gas_temp_freeboard;
      Return [fig1; fig2; fig3; fig4; fig5; fig6]
  | _ => Raise "ValueError"
  end.

Definition run (horizon : A) : outcome (list (series A)) :=
  do r <- numerical_solution horizon;
  plots (mesh horizon) (fst r).

Definition script : outcome (list (series A)) := run t_final.

End Model.
End Incinerator.

(** * Vocabulary of the properties *)

(** ** Exact solutions of an initial value problem *)

Module ODE.
Local Open Scope R_scope.

(** A trajectory in continuous time: one function of time per state
    component. *)
Definition trajectory : Type := list (R -> R).

Definition state_at (xs : trajectory) (t : R) : list R :=
  map (fun x => x t) xs.

(** Component [i] of [xs] starts at component [i] of [y0], is continuous
    on [[0, T]] and, inside the interval, has the derivative that [f]
    gives there. *)
Definition solves_component
  (f : rhs R) (y0 : list R) (T : R) (xs : trajectory) (i : nat) : Prop :=
  exists x : R -> R,
    nth_error xs i = Some x /\
    nth_error y0 i = Some (x 0) /\
    (forall t, 0 <= t <= T -> continuity_pt x t) /\
    (forall t, 0 < t < T ->
       exists dX d, f (state_at xs t) t = Some dX /\
                    nth_error dX i = Some d /\
                    derivable_pt_lim x t d).

(** [xs] solves [X' = f(X, t)], [X(0) = y0] on [[0, T]]. *)
Definition solves (f : rhs R) (y0 : list R) (T : R) (xs : trajectory) : Prop :=
  length xs = length y0 /\
  forall i, (i < length y0)%nat -> solves_component f y0 T xs i.

(** A sampled series stays within [tol] of the function [x] at the sample
    times. *)
Definition tracks (tol : R) (x : R -> R) (t series : list R) : Prop :=
  Forall2 (fun ti v => Rabs (v - x ti) <= tol) t series.

End ODE.

(** ** What the scripts take from the solver

    [integrate.odeint] is SciPy's wrapper of LSODA and no part of the
    scripts; the properties below are those of its documentation that the
    scripts depend on. *)

Module Contract.
Section Documented.
Variable A : Type.
Variable odeint : odeint_type A.

(** The returned array has shape [(len(t), len(y0))], with the initial
    value [y0] in the first row, and repeated time values are allowed: on
    a mesh that never leaves the initial time nothing is integrated and
    every row is the initial value. *)
Record documented : Prop := {
  output_shape :
    forall f y0 t mxstep X info,
      odeint f y0 t mxstep = Return (X, info) ->
      length X = length t /\ Forall (fun row => length row = length y0) X;
  initial_row :
    forall f y0 t mxstep X info,
      odeint f y0 t mxstep = Return (X, info) ->
      t <> [] -> hd_error X = Some y0;
  repeated_times :
    forall f y0 t0 n mxstep dy,
      f y0 t0 = Some dy -> length dy = length y0 ->
      exists info,
        odeint f y0 (repeat t0 n) mxstep = Return (repeat y0 n, info)
}.

End Documented.
Arguments documented {A} odeint.

Section Solvers.
Context {A : Type} `{Scalar A}.

(** A solver that meets [documented] in the plainest way: it holds the
    initial value at every reporting time. *)
Definition hold_solver : odeint_type A :=
  fun f y0 t mxstep =>
    Return (map (fun _ => y0) t, {| message := msg_success |}).

(** A call on which the step ceiling is hit in the first reporting
    interval, as [odeint] answers it: a warning and a normal return of the
    array, initial value in the first row and nothing integrated beyond it,
    with the status message of the excess work. *)
Definition exhausted_solver : odeint_type A :=
  fun f y0 t mxstep =>
    Return (match t with
            | [] => []
            | _ :: t' => y0 :: map (fun _ => map (fun _ => int 0) y0) t'
            end,
            {| message := msg_excess_work |}).

End Solvers.

(** The reading of "a step-count failure aborts the run" for a script:
    whenever the solver call comes back with the excess-work status, the
    script raises instead of producing figures. *)
Definition aborts_on_excess_work {A : Type}
  (numerical_solution : odeint_type A -> outcome (list (list A) * infodict))
  (script : odeint_type A -> outcome (list (series A))) : Prop :=
  forall odeint X info,
    numerical_solution odeint = Return (X, info) ->
    message info = msg_excess_work ->
    is_return (script odeint) = false.

End Contract.

(** ** Closed forms *)

Module Closed.
Local Open Scope R_scope.

(** Truck: uniformly accelerated motion. *)
Definition acceleration : R := TransportTruck.F / TransportTruck.m_total.

Definition position (t : R) : R :=
  TransportTruck.position_ini + TransportTruck.speed_ini * t
  + 0.5 * acceleration * t ^ 2.

Definition speed (t : R) : R :=
  TransportTruck.speed_ini + acceleration * t.


(** Droop: the diagnostic [S + X_ALG*Q], its derivative along a direction
    [(dX_ALG, dQ, dS)], and the first-order response towards [S_in] with
    time constant [T_h] that starts at [g0]. *)
Definition diagnostic (X_ALG Q S : R) : R := S + X_ALG * Q.

Definition diagnostic_rate (X_ALG Q dX_ALG dQ dS : R) : R :=
  dS + dX_ALG * Q + X_ALG * dQ.

Definition relaxation (g0 t : R) : R :=
  MicroalgaeDroop.S_in
  + (g0 - MicroalgaeDroop.S_in) * exp (- t / MicroalgaeDroop.T_h).

(** The steady state of the Droop model, where the three rates vanish. *)
Definition Q_eq : R := 17051 / 6925.
Definition S_eq : R := 153459 / 11484410.
Definition X_ALG_eq : R := (100 - S_eq) / Q_eq.

(** The trajectory that rests at the steady state. *)
Definition steady : ODE.trajectory :=
  [fun _ => X_ALG_eq; fun _ => Q_eq; fun _ => S_eq].

(** Incinerator: the four masses grow linearly. *)
Definition waste_mass (t : R) : R := 20 * t.
Definition char_mass (t : R) : R := t.
Definition gas_mass_wastebed (t : R) : R := 4 * t.
Definition gas_mass_freeboard (t : R) : R := 3 * t.




End Closed.

(** ** Further closed forms and steady states *)

Module Derived.
Local Open Scope R_scope.

(** Incinerator: the wastebed temperature that goes with the linear waste
    and char masses, [28 (1 + 21 t / 2500)^(25/7) - 8]. *)
Definition wastebed_temp (t : R) : R :=
  28 * Rpower (1 + 21 / 2500 * t) (25 / 7) - 8.

(** The masses of [Closed.masses] with that wastebed temperature. *)
Definition heated : ODE.trajectory :=
  [Closed.waste_mass; Closed.char_mass; wastebed_temp;
   Closed.gas_mass_wastebed; Closed.gas_mass_freeboard; fun _ => 20].

(** Droop: the internal quota of the washout steady state (no biomass,
    substrate at [S_in]). *)
Definition Q_washout : R := 81928051 / 10040030.

(** Droop: the light factor [I / (I + K_sI + I^2 / K_iI)] of the growth
    rate. *)
Definition light_factor : R :=
  MicroalgaeDroop.I
  / (MicroalgaeDroop.I + MicroalgaeDroop.K_sI
     + MicroalgaeDroop.I * MicroalgaeDroop.I / MicroalgaeDroop.K_iI).

(** Truck: kinetic energy at speed [v]. *)
Definition kinetic_energy (v : R) : R := 0.5 * TransportTruck.m_total * v ^ 2.

End Derived.

(** ** The shape a script needs of the returned trajectory *)

Module Shape.

(** A trajectory array with [d] columns and one row per mesh time. *)
Definition fits {A : Type} (d : nat) (t : list A) (X : list (list A)) : Prop :=
  exists row, hd_error X = Some row /\ length row = d /\ length X = length t.

End Shape.

(** ** The accuracy the scripts trust the solver for

    The scripts take the returned trajectory for the solution of the
    initial value problem: a call that returns with the success message is
    taken to be, at the reporting times, within a tolerance of an exact
    solution.  This is what the adaptive error control of LSODA is relied
    on for; it is a property of the solver, stated here for the call the
    script makes, and not derived from the scripts. *)

Module Accuracy.
Section Solver.
Local Open Scope R_scope.
Variable odeint : odeint_type R.

(** On the problem [(f, y0)] over [[0, T]]: every successful call at
    times in the interval returns columns within [tol] of the components
    of one exact solution. *)
Definition within (tol : R) (f : rhs R) (y0 : list R) (T : R) : Prop :=
  forall t mxstep X info,
    odeint f y0 t mxstep = Return (X, info) ->
    message info = msg_success ->
    (forall ti, In ti t -> 0 <= ti <= T) ->
    exists xs,
      ODE.solves f y0 T xs /\
      forall i x, nth_error xs i = Some x ->
                  ODE.tracks tol x t (Numpy.column i X).

(** The same for component [i] alone. *)
Definition within_component
  (tol : R) (f : rhs R) (y0 : list R) (T : R) (i : nat) : Prop :=
  forall t mxstep X info,
    odeint f y0 t mxstep = Return (X, info) ->
    message info = msg_success ->
    (forall ti, In ti t -> 0 <= ti <= T) ->
    exists xs x,
      ODE.solves_component f y0 T xs i /\ nth_error xs i = Some x /\
      ODE.tracks tol x t (Numpy.column i X).

End Solver.



End Accuracy.

(** * Properties *)

(** Tactics: the arithmetic of the real instance, and the globals of the
    incinerator module. *)
Ltac real_arith :=
  cbv [nadd nsub nmul ndiv nneg of_Z int decimal sqr of_nat R_scalar] in *.

(** Equality of two vectors of reals, component by component. *)
Ltac real_vector :=
  apply f_equal;
  repeat (apply (f_equal2 (@cons R));
          [first [lra | field; repeat split; lra] |]);
  reflexivity.

(** Evaluates the powers of ten of the decimal literals in the goal. *)
Ltac eval_powers :=
  repeat match goal with
  | |- context [Z.pow ?a ?b] =>
      let v := eval vm_compute in (Z.pow a b) in
      change (Z.pow a b) with v
  end.

Ltac unfold_droop :=
  unfold MicroalgaeDroop.mu, MicroalgaeDroop.rho, MicroalgaeDroop.mu_tilde,
    MicroalgaeDroop.k_q, MicroalgaeDroop.K_S, MicroalgaeDroop.rho_max,
    MicroalgaeDroop.T_h, MicroalgaeDroop.S_in, MicroalgaeDroop.K_CO2,
    MicroalgaeDroop.I, MicroalgaeDroop.I_bar, MicroalgaeDroop.K_sI,
    MicroalgaeDroop.K_iI, MicroalgaeDroop.X_ALG_ini, MicroalgaeDroop.Q_ini,
    MicroalgaeDroop.S_ini;
  cbv [nadd nsub nmul ndiv nneg of_Z int decimal sqr of_nat R_scalar];
  eval_powers.

Ltac eval_globals :=
  repeat match goal with
  | |- context [Incinerator.global ?s] =>
      let v := eval vm_compute in (Incinerator.global s) in
      change (Incinerator.global s) with v
  end.

Ltac unfold_incinerator :=
  unfold Incinerator.wastebed_heat_capacity,
    Incinerator.freeboard_heat_capacity,
    Incinerator.F_in, Incinerator.F_out, Incinerator.R_w,
    Incinerator.F_char_out, Incinerator.P_char, Incinerator.R_char,
    Incinerator.c_p_w, Incinerator.F_aI, Incinerator.c_p_g,
    Incinerator.T_aI, Incinerator.Q, Incinerator.c_p_char,
    Incinerator.c_p_m, Incinerator.M_grate, Incinerator.F_g_w_out,
    Incinerator.R_g, Incinerator.F_g_out, Incinerator.F_aII,
    Incinerator.M_f_b, Incinerator.T_aII, Incinerator.Q_g,
    Incinerator.Q_ext, Incinerator.M_ini, Incinerator.M_char_ini,
    Incinerator.T_w_ini, Incinerator.M_g_w_ini, Incinerator.M_g_f_ini,
    Incinerator.T_g_ini;
  eval_globals.

(** ** Calculus: functions determined by their derivative *)

Section Calculus.
Local Open Scope R_scope.

Lemma derivable_pt_lim_value (f : R -> R) (t l l' : R) :
  derivable_pt_lim f t l -> l = l' -> derivable_pt_lim f t l'.
Proof. intros Hd E. rewrite <- E. exact Hd. Qed.

Lemma constant_of_zero_derivative (g : R -> R) (a b : R) :
  (forall t, a <= t <= b -> continuity_pt g t) ->
  (forall t, a < t < b -> derivable_pt_lim g t 0) ->
  forall t, a <= t <= b -> g t = g a.
Proof.
  intros Hc Hd t Ht.
  pose (pr := fun (x : R) (P : a < x < b) =>
                exist (fun l => derivable_pt_abs g x l) 0 (Hd x P)).
  assert (Hz : forall (x : R) (P : a < x < b), derive_pt g x (pr x P) = 0)
    by (intros; reflexivity).
  exact (null_derivative_loc g a b pr Hc Hz t Ht).
Qed.

(** Two functions with the same derivative inside an interval differ by a
    constant on it. *)
Lemma determined_by_derivative (x y : R -> R) (d : R -> R) (a b : R) :
  (forall t, a <= t <= b -> continuity_pt x t) ->
  (forall t, a <= t <= b -> continuity_pt y t) ->
  (forall t, a < t < b -> derivable_pt_lim x t (d t)) ->
  (forall t, a < t < b -> derivable_pt_lim y t (d t)) ->
  forall t, a <= t <= b -> x t = x a + (y t - y a).
Proof.
  intros Hcx Hcy Hdx Hdy t Ht.
  assert (E : (x - y)%F t = (x - y)%F a).
  { apply constant_of_zero_derivative with (b := b); auto.
    - intros s Hs. apply continuity_pt_minus; auto.
    - intros s Hs.
      apply derivable_pt_lim_value with (l := d s - d s); [| ring].
      apply derivable_pt_lim_minus; auto. }
  unfold minus_fct in E. lra.
Qed.

Lemma derivable_pt_lim_affine (c0 c1 t : R) :
  derivable_pt_lim (fun s => c0 + c1 * s) t c1.
Proof.
  apply derivable_pt_lim_value with (l := 0 + (0 * t + c1 * 1)); [| ring].
  apply (derivable_pt_lim_plus (fun _ => c0) (fun s => c1 * s)).
  - apply derivable_pt_lim_const.
  - apply (derivable_pt_lim_mult (fun _ => c1) (fun s => s)).
    + apply derivable_pt_lim_const.
    + apply derivable_pt_lim_id.
Qed.

Lemma derivable_pt_lim_quadratic (c0 c1 c2 t : R) :
  derivable_pt_lim (fun s => c0 + c1 * s + c2 * s ^ 2) t (c1 + 2 * c2 * t).
Proof.
  apply derivable_pt_lim_value
    with (l := c1 + (0 * t ^ 2 + c2 * (INR 2 * t ^ Nat.pred 2)));
    [| simpl; ring].
  apply (derivable_pt_lim_plus (fun s => c0 + c1 * s) (fun s => c2 * s ^ 2)).
  - apply derivable_pt_lim_affine.
  - apply (derivable_pt_lim_mult (fun _ => c2) (fun s => s ^ 2)).
    + apply derivable_pt_lim_const.
    + apply derivable_pt_lim_pow.
Qed.

Lemma continuity_of_derivable (x : R -> R) (t d : R) :
  derivable_pt_lim x t d -> continuity_pt x t.
Proof.
  intro Hd. apply derivable_continuous_pt. exists d. exact Hd.
Qed.

(** A function with constant derivative [c] is affine. *)
Lemma affine_of_constant_derivative (x : R -> R) (c T : R) :
  (forall t, 0 <= t <= T -> continuity_pt x t) ->
  (forall t, 0 < t < T -> derivable_pt_lim x t c) ->
  forall t, 0 <= t <= T -> x t = x 0 + c * t.
Proof.
  intros Hc Hd t Ht.
  assert (Hy : forall s, derivable_pt_lim (fun u => 0 + c * u) s c)
    by (intro s; apply derivable_pt_lim_affine).
  assert (E := determined_by_derivative x (fun u => 0 + c * u) (fun _ => c)
                 0 T Hc (fun s _ => continuity_of_derivable _ _ _ (Hy s))
                 Hd (fun s _ => Hy s) t Ht).
  simpl in E. lra.
Qed.

(** A function whose derivative is the affine [v0 + a t] is quadratic. *)
Lemma quadratic_of_affine_derivative (p : R -> R) (v0 a T : R) :
  (forall t, 0 <= t <= T -> continuity_pt p t) ->
  (forall t, 0 < t < T -> derivable_pt_lim p t (v0 + a * t)) ->
  forall t, 0 <= t <= T -> p t = p 0 + v0 * t + 0.5 * a * t ^ 2.
Proof.
  intros Hc Hd t Ht.
  assert (Hy : forall s, derivable_pt_lim
                           (fun u => 0 + v0 * u + 0.5 * a * u ^ 2) s
                           (v0 + a * s)).
  { intro s.
    apply derivable_pt_lim_value with (l := v0 + 2 * (0.5 * a) * s); [| lra].
    apply derivable_pt_lim_quadratic. }
  assert (E := determined_by_derivative p
                 (fun u => 0 + v0 * u + 0.5 * a * u ^ 2)
                 (fun s => v0 + a * s)
                 0 T Hc (fun s _ => continuity_of_derivable _ _ _ (Hy s))
                 Hd (fun s _ => Hy s) t Ht).
  simpl in E. lra.
Qed.

(** A function that relaxes towards [L] at rate [k], [g' = k (L - g)],
    is the exponential response [L + (g(0) - L) exp(-k t)]. *)
Lemma exponential_of_relaxation (g : R -> R) (k L T : R) :
  (forall t, 0 <= t <= T -> continuity_pt g t) ->
  (forall t, 0 < t < T -> derivable_pt_lim g t (k * (L - g t))) ->
  forall t, 0 <= t <= T -> g t = L + (g 0 - L) * exp (- (k * t)).
Proof.
  intros Hc Hd t Ht.
  pose (h := fun s => (g s - L) * exp (k * s)).
  assert (Hexp : forall s, derivable_pt_lim (fun u => exp (k * u)) s
                             (exp (k * s) * k)).
  { intro s.
    apply (derivable_pt_lim_comp (fun u => k * u) exp).
    - apply derivable_pt_lim_value with (l := 0 * s + k * 1); [| ring].
      apply (derivable_pt_lim_mult (fun _ => k) (fun u => u)).
      + apply derivable_pt_lim_const.
      + apply derivable_pt_lim_id.
    - apply derivable_pt_lim_exp. }
  assert (E : h t = h 0).
  { apply constant_of_zero_derivative with (b := T); auto.
    - intros s Hs. unfold h.
      apply (continuity_pt_mult (fun u => g u - L) (fun u => exp (k * u))).
      + apply (continuity_pt_minus g (fun _ => L)); auto.
        apply continuity_pt_const. intros u v. reflexivity.
      + apply continuity_of_derivable with (d := exp (k * s) * k). apply Hexp.
    - intros s Hs. unfold h.
      apply derivable_pt_lim_value
        with (l := (k * (L - g s) - 0) * exp (k * s)
                   + (g s - L) * (exp (k * s) * k)); [| ring].
      apply (derivable_pt_lim_mult (fun u => g u - L) (fun u => exp (k * u))).
      + apply (derivable_pt_lim_minus g (fun _ => L)); auto.
        apply derivable_pt_lim_const.
      + apply Hexp. }
  unfold h in E. rewrite Rmult_0_r, exp_0, Rmult_1_r in E.
  rewrite exp_Ropp.
  assert (Hpos : exp (k * t) <> 0) by (apply Rgt_not_eq, exp_pos).
  apply Rmult_eq_reg_r with (r := exp (k * t)); auto.
  rewrite Rmult_plus_distr_r, Rmult_assoc, Rinv_l, Rmult_1_r by auto.
  lra.
Qed.

Lemma quotient_positive (a b : R) : 0 < b -> (0 < a / b <-> 0 < a).
Proof.
  intro Hb. assert (Hi : 0 < / b) by (apply Rinv_0_lt_compat; exact Hb).
  split; intro Ha.
  - replace a with (a / b * b) by (field; lra).
    apply Rmult_lt_0_compat; assumption.
  - apply Rmult_lt_0_compat; assumption.
Qed.

Lemma quotient_zero (a b : R) : 0 < b -> (a / b = 0 <-> a = 0).
Proof.
  intro Hb. split; intro Ha.
  - replace a with (a / b * b) by (field; lra). rewrite Ha. ring.
  - rewrite Ha. unfold Rdiv. ring.
Qed.



End Calculus.

(** ** The reporting mesh *)

Section Mesh.
Context {A : Type} `{Scalar A}.

Lemma linspace_length (start stop : A) (num : nat) :
  length (Numpy.linspace start stop num) = num.
Proof.
  destruct num as [| [| n]]; simpl; try reflexivity.
  rewrite length_app, length_map, length_seq. simpl. lia.
Qed.

Lemma linspace_first (start stop : A) (n : nat) :
  nth_error (Numpy.linspace start stop (S (S n))) 0
  = Some (nadd (nmul (of_nat 0) (ndiv (nsub stop start) (of_nat (S n)))) start).
Proof. reflexivity. Qed.

Lemma linspace_last (start stop : A) (n : nat) :
  nth_error (Numpy.linspace start stop (S (S n))) (S n) = Some stop.
Proof.
  unfold Numpy.linspace.
  rewrite nth_error_app2; rewrite length_map, length_seq; [| lia].
  rewrite Nat.sub_diag. reflexivity.
Qed.

Lemma linspace_inner (start stop : A) (n i : nat) :
  (i < S n)%nat ->
  nth_error (Numpy.linspace start stop (S (S n))) i
  = Some (nadd (nmul (of_nat i) (ndiv (nsub stop start) (of_nat (S n)))) start).
Proof.
  intro Hi. unfold Numpy.linspace.
  rewrite nth_error_app1 by (rewrite length_map, length_seq; lia).
  rewrite nth_error_map, nth_error_seq.
  destruct (Nat.ltb_spec i (S n)) as [_ | Hge]; [| lia].
  reflexivity.
Qed.

End Mesh.

Section RealMesh.
Local Open Scope R_scope.

(** Over the reals the overwritten last sample is the value the formula
    gives anyway: sample [i] of [num = n + 2] points is
    [start + i (stop - start) / (n + 1)]. *)
Lemma linspace_nth_error (start stop : R) (n i : nat) :
  (i < S (S n))%nat ->
  nth_error (Numpy.linspace start stop (S (S n))) i
  = Some (start + INR i * ((stop - start) / INR (S n))).
Proof.
  intro Hi.
  assert (Hn : INR (S n) <> 0) by (apply not_0_INR; lia).
  destruct (Nat.eq_dec i (S n)) as [-> | Hne].
  - rewrite linspace_last. f_equal. field. exact Hn.
  - rewrite linspace_inner by lia.
    unfold of_nat; cbn [nadd nmul ndiv nsub of_Z R_scalar].
    rewrite <- !INR_IZR_INZ. f_equal. ring.
Qed.




End RealMesh.

(** ** Transport truck *)

Section Truck.
Local Open Scope R_scope.

Lemma truck_field (p s t : R) :
  TransportTruck.transportTruck [p; s] t = Some [s; Closed.acceleration].
Proof. reflexivity. Qed.


Lemma truck_closed_form_solves (T : R) :
  ODE.solves TransportTruck.transportTruck TransportTruck.X_ini T
    [Closed.position; Closed.speed].
Proof.
  split; [reflexivity |].
  intros i Hi. simpl in Hi.
  assert (Hp : forall t, derivable_pt_lim Closed.position t (Closed.speed t)).
  { intro t. unfold Closed.position, Closed.speed.
    apply derivable_pt_lim_value
      with (l := TransportTruck.speed_ini + 2 * (0.5 * Closed.acceleration) * t);
      [| lra].
    apply derivable_pt_lim_quadratic. }
  assert (Hs : forall t, derivable_pt_lim Closed.speed t Closed.acceleration).
  { intro t. unfold Closed.speed. apply derivable_pt_lim_affine. }
  destruct i as [| [| i]]; [| | lia].
  - exists Closed.position. repeat split.
    + simpl. f_equal.
      unfold Closed.position, TransportTruck.position_ini. real_arith. ring.
    + intros t _. apply continuity_of_derivable with (d := Closed.speed t).
      apply Hp.
    + intros t _. exists [Closed.speed t; Closed.acceleration], (Closed.speed t).
      repeat split. apply Hp.
  - exists Closed.speed. repeat split.
    + simpl. f_equal.
      unfold Closed.speed, TransportTruck.speed_ini. real_arith. ring.
    + intros t _. apply continuity_of_derivable with (d := Closed.acceleration).
      apply Hs.
    + intros t _. exists [Closed.speed t; Closed.acceleration], Closed.acceleration.
      repeat split. apply Hs.
Qed.

Lemma truck_solution_unique (T : R) (xs : ODE.trajectory) :
  ODE.solves TransportTruck.transportTruck TransportTruck.X_ini T xs ->
  exists p s, xs = [p; s] /\
    forall t, 0 <= t <= T -> p t = Closed.position t /\ s t = Closed.speed t.
Proof.
  intros [Hlen Hsol].
  destruct xs as [| p [| s [| ? ?]]]; try discriminate Hlen.
  exists p, s. split; [reflexivity |].
  destruct (Hsol 1%nat) as (s' & Es & Hs0 & Hsc & Hsd); [simpl; lia |].
  destruct (Hsol 0%nat) as (p' & Ep & Hp0 & Hpc & Hpd); [simpl; lia |].
  simpl in Es, Ep. injection Es as <-. injection Ep as <-.
  assert (Hs0' : s 0 = TransportTruck.speed_ini)
    by (simpl in Hs0; injection Hs0 as E; rewrite <- E; reflexivity).
  assert (Hp0' : p 0 = TransportTruck.position_ini)
    by (simpl in Hp0; injection Hp0 as E; rewrite <- E; reflexivity).
  assert (Hspeed : forall t, 0 <= t <= T -> s t = Closed.speed t).
  { intros t Ht. unfold Closed.speed. rewrite <- Hs0'.
    apply affine_of_constant_derivative with (T := T); auto.
    intros u Hu. destruct (Hsd u Hu) as (dX & d & Ef & Ed & Hd).
    simpl in Ef. rewrite truck_field in Ef. injection Ef as <-.
    simpl in Ed. injection Ed as <-. exact Hd. }
  intros t Ht. split; [| apply Hspeed; exact Ht].
  unfold Closed.position. rewrite <- Hp0', <- Hs0'.
  apply quadratic_of_affine_derivative with (T := T); auto.
  intros u Hu. destruct (Hpd u Hu) as (dX & d & Ef & Ed & Hd).
  simpl in Ef. rewrite truck_field in Ef. injection Ef as <-.
  simpl in Ed. injection Ed as <-.
  rewrite Hspeed in Hd by lra. unfold Closed.speed in Hd.
  rewrite <- Hs0' in Hd. exact Hd.
Qed.

End Truck.

Section Sampling.
Local Open Scope R_scope.



End Sampling.

Section SolverAccuracy.
Local Open Scope R_scope.





(** Accuracy on every component gives it on each. *)
Lemma within_gives_component
  (odeint : odeint_type R) (tol : R) (f : rhs R) (y0 : list R) (T : R)
  (i : nat) :
  (i < length y0)%nat ->
  Accuracy.within odeint tol f y0 T ->
  Accuracy.within_component odeint tol f y0 T i.
Proof.
  intros Hi Hacc t mx X info E Hmsg Ht.
  destruct (Hacc t mx X info E Hmsg Ht) as (xs & [Hlen Hsol] & Htr).
  destruct (Hsol i Hi) as (x & Ex & Hrest).
  exists xs, x. split; [exists x; split; assumption |].
  split; [exact Ex |]. apply Htr. exact Ex.
Qed.




End SolverAccuracy.



(** ** Incinerator *)

Section IncineratorFacts.

(** Every name the module reads is bound when the function is called. *)
Lemma names_bound :
  forall x, In x Incinerator.names -> Incinerator.globals x <> None.
Proof.
  intros x Hin. unfold Incinerator.names in Hin. simpl in Hin.
  repeat (destruct Hin as [<- | Hin]; [vm_compute; discriminate |]).
  contradiction.
Qed.

Section AnyScalar.
Context {A : Type} `{Scalar A}.

(** The function is defined exactly on the states with at least six
    components (it reads [X[5]]), and then returns six rates. *)
Lemma incinerator_defined (X : list A) (t : A) :
  (6 <= length X)%nat -> exists dX, Incinerator.incinerator X t = Some dX.
Proof.
  intro Hlen.
  destruct X as [| x0 [| x1 [| x2 [| x3 [| x4 [| x5 X]]]]]];
    simpl in Hlen; try lia.
  eexists. reflexivity.
Qed.

Lemma incinerator_shape (X : list A) (t : A) (dX : list A) :
  Incinerator.incinerator X t = Some dX ->
  exists x0 x1 x2 x4 x5,
    X.[0] = Some x0 /\ X.[1] = Some x1 /\ X.[2] = Some x2 /\
    X.[4] = Some x4 /\ X.[5] = Some x5 /\
    dX = [nsub (nsub Incinerator.F_in Incinerator.F_out) Incinerator.R_w;
          nsub (nadd (nneg Incinerator.F_char_out) Incinerator.P_char)
            Incinerator.R_char;
          ndiv (nadd (nadd (nmul (nmul Incinerator.F_in Incinerator.c_p_w) x2)
                        (nmul (nmul Incinerator.F_aI Incinerator.c_p_g)
                           (nsub Incinerator.T_aI x2)))
                  Incinerator.Q)
            (Incinerator.wastebed_heat_capacity x0 x1);
          nadd (nsub Incinerator.F_aI Incinerator.F_g_w_out) Incinerator.R_g;
          nadd (nsub Incinerator.F_g_w_out Incinerator.F_g_out)
            Incinerator.F_aII;
          ndiv (nsub (nadd (nadd (nmul (nmul Incinerator.F_g_w_out
                                          Incinerator.c_p_g) (nsub x2 x5))
                              (nmul (nmul Incinerator.F_aII Incinerator.c_p_g)
                                 (nsub Incinerator.T_aII x5)))
                        Incinerator.Q_g) Incinerator.Q_ext)
            (Incinerator.freeboard_heat_capacity x4)].
Proof.
  unfold Incinerator.incinerator, bind, getitem. intro E.
  destruct (nth_error X 2) as [x2 |]; [| discriminate].
  destruct (nth_error X 0) as [x0 |]; [| discriminate].
  destruct (nth_error X 1) as [x1 |]; [| discriminate].
  destruct (nth_error X 5) as [x5 |]; [| discriminate].
  destruct (nth_error X 4) as [x4 |]; [| discriminate].
  exists x0, x1, x2, x4, x5. injection E as <-. repeat split.
Qed.

End AnyScalar.

Local Open Scope R_scope.

(** The four mass rates over the reals. *)
Lemma incinerator_mass_rates (X : list R) (t : R) (dX : list R) :
  Incinerator.incinerator X t = Some dX ->
  nth_error dX 0 = Some 20 /\ nth_error dX 1 = Some 1 /\
  nth_error dX 3 = Some 4 /\ nth_error dX 4 = Some 3.
Proof.
  intro E. apply incinerator_shape in E.
  destruct E as (x0 & x1 & x2 & x4 & x5 & _ & _ & _ & _ & _ & ->).
  cbn [nth_error]. unfold_incinerator.
  cbv [nadd nsub nneg int of_Z R_scalar].
  repeat split; f_equal; lra.
Qed.

(** A component whose rate is the constant [c] whatever the state grows
    linearly from its initial value. *)
Lemma constant_rate_component
  (f : rhs R) (y0 : list R) (T : R) (xs : ODE.trajectory)
  (i : nat) (c v0 : R) (x : R -> R) :
  (forall X t dX, f X t = Some dX -> nth_error dX i = Some c) ->
  nth_error y0 i = Some v0 ->
  ODE.solves_component f y0 T xs i ->
  nth_error xs i = Some x ->
  forall t, 0 <= t <= T -> x t = v0 + c * t.
Proof.
  intros Hrate Hy0 (x' & Ex & E0 & Hc & Hd) Hx t Ht.
  rewrite Hx in Ex. injection Ex as <-.
  rewrite Hy0 in E0. injection E0 as ->.
  apply affine_of_constant_derivative with (T := T); auto.
  intros u Hu. destruct (Hd u Hu) as (dX & d & Ef & Ed & Hlim).
  rewrite (Hrate _ _ _ Ef) in Ed. injection Ed as <-. exact Hlim.
Qed.

End IncineratorFacts.

Section IncineratorSolutions.
Local Open Scope R_scope.

Lemma incinerator_initial_state :
  Incinerator.X_ini = [0; 0; 20; 0; 0; 20] /\ Incinerator.t_final = 180.
Proof.
  unfold Incinerator.X_ini, Incinerator.t_final. unfold_incinerator.
  cbv [nmul int of_Z R_scalar]. split; [reflexivity | lra].
Qed.



End IncineratorSolutions.





(** C8: the three derivative functions take a time argument and do not
    depend on it: at any scalar type, for every state [X] (also one on which
    the function raises) and all times [t1], [t2], [f(X, t1) = f(X, t2)]. *)
Theorem derivative_functions_autonomous :
  forall (A : Type) (SA : Scalar A) (X : list A) (t1 t2 : A),
    Incinerator.incinerator X t1 = Incinerator.incinerator X t2 /\
    MicroalgaeDroop.microalgaeDroop X t1 = MicroalgaeDroop.microalgaeDroop X t2 /\
    TransportTruck.transportTruck X t1 = TransportTruck.transportTruck X t2.
Proof.
  intros A SA X t1 t2. repeat split.
Qed.

(** C6: [c_p_m] is assigned twice in the incinerator module, 25 and then
    5, and [incinerator] reads the final value 5 in both denominators: the
    wastebed one is [c_p_w X[0] + c_p_char X[1] + 5 M_grate
    = X[0] + X[1] + 2500], not [X[0] + X[1] + 12500], and at
    [X_ini = [0, 0, 20, 0, 0, 20]] the wastebed-temperature derivative is
    [(100*1*20 + 5*5*(20 - 20) + 100) / 2500 = 0.84], over the reals and as
    computed in binary64. *)
Theorem c_p_m_final_value :
  filter (fun stmt => String.eqb (fst stmt) "c_p_m") Incinerator.assignments
  = [("c_p_m", 25%Z); ("c_p_m", 5%Z)] /\
  Incinerator.globals "c_p_m" = Some 5%Z /\
  (forall x0 x1 x4 : R,
     Incinerator.wastebed_heat_capacity x0 x1
     = Incinerator.c_p_w * x0 + Incinerator.c_p_char * x1
       + 5 * Incinerator.M_grate /\
     Incinerator.wastebed_heat_capacity x0 x1 = x0 + x1 + 2500 /\
     Incinerator.wastebed_heat_capacity x0 x1 <> x0 + x1 + 12500 /\
     Incinerator.freeboard_heat_capacity x4 = 5 * x4 + 5 * 120)%R /\
  (forall (X : list R) (t : R) (dX : list R),
     Incinerator.incinerator X t = Some dX ->
     exists x0 x1 x2 x4 x5 : R,
       X.[0] = Some x0 /\ X.[1] = Some x1 /\ X.[2] = Some x2 /\
       X.[4] = Some x4 /\ X.[5] = Some x5 /\
       nth_error dX 2
       = Some ((100 * 1 * x2 + 5 * 5 * (20 - x2) + 100)
               / (x0 + x1 + 2500))%R /\
       nth_error dX 5
       = Some ((2 * 5 * (x2 - x5) + 3 * 5 * (20 - x5) + 450 - 40)
               / (5 * x4 + 5 * 120))%R) /\
  (forall t : R,
     exists dX, Incinerator.incinerator Incinerator.X_ini t = Some dX /\
                nth_error dX 2 = Some 0.84%R) /\
  ((100 * 1 * 20 + 5 * 5 * (20 - 20) + 100) / 2500 = 0.84)%R /\
  (forall t : float,
     exists dX, Incinerator.incinerator Incinerator.X_ini t = Some dX /\
                nth_error dX 2 = Some (decimal 84 2)).
Proof.
  split; [reflexivity |].
  split; [reflexivity |].
  split.
  { intros x0 x1 x4. unfold_incinerator.
    cbv [nadd nmul int of_Z R_scalar]. repeat split; lra. }
  split.
  { intros X t dX E. apply incinerator_shape in E.
    destruct E as (x0 & x1 & x2 & x4 & x5 & E0 & E1 & E2 & E4 & E5 & ->).
    exists x0, x1, x2, x4, x5. repeat (split; [assumption |]).
    cbn [nth_error]. unfold_incinerator.
    cbv [nadd nsub nmul ndiv int of_Z R_scalar].
    split; do 2 f_equal; lra. }
  split.
  { intro t. eexists. split; [reflexivity |].
    cbn [nth_error]. unfold_incinerator.
    cbv [nadd nsub nmul ndiv int of_Z R_scalar]. f_equal. lra. }
  split; [lra |].
  intro t. eexists. split; [reflexivity |]. vm_compute. reflexivity.
Qed.

Lemma c_p_m_final_value_witness :
  exists x0 x1 x2 x4 x5 : R,
    [0; 0; 20; 0; 0; 20]%R.[0] = Some x0 /\
    [0; 0; 20; 0; 0; 20]%R.[1] = Some x1 /\
    [0; 0; 20; 0; 0; 20]%R.[2] = Some x2 /\
    [0; 0; 20; 0; 0; 20]%R.[4] = Some x4 /\
    [0; 0; 20; 0; 0; 20]%R.[5] = Some x5 /\
    nth_error [20; 1; 0.84; 4; 3; 41 / 60]%R 2
    = Some ((100 * 1 * x2 + 5 * 5 * (20 - x2) + 100) / (x0 + x1 + 2500))%R /\
    nth_error [20; 1; 0.84; 4; 3; 41 / 60]%R 5
    = Some ((2 * 5 * (x2 - x5) + 3 * 5 * (20 - x5) + 450 - 40)
            / (5 * x4 + 5 * 120))%R.
Proof.
  destruct c_p_m_final_value as (_ & _ & _ & Hread & _).
  apply (Hread [0; 0; 20; 0; 0; 20]%R 0%R).
  rewrite <- (proj1 incinerator_initial_state).
  unfold Incinerator.X_ini, Incinerator.incinerator. simpl.
  unfold_incinerator. cbv [nadd nsub nmul ndiv nneg int of_Z R_scalar].
  real_vector.
Defined.

Section Definedness.
Context {A : Type} `{Scalar A}.

Lemma microalgaeDroop_defined (X : list A) (t : A) :
  (3 <= length X)%nat ->
  exists dX, MicroalgaeDroop.microalgaeDroop X t = Some dX.
Proof.
  intro Hlen. destruct X as [| x0 [| x1 [| x2 X]]]; simpl in Hlen; try lia.
  eexists. reflexivity.
Qed.

Lemma transportTruck_defined (X : list A) (t : A) :
  (2 <= length X)%nat ->
  exists dX, TransportTruck.transportTruck X t = Some dX.
Proof.
  intro Hlen. destruct X as [| x0 [| x1 X]]; simpl in Hlen; try lia.
  eexists. reflexivity.
Qed.

End Definedness.

(** C7: the divisions of the derivative functions are unguarded.  The
    wastebed denominator [c_p_w X[0] + c_p_char X[1] + c_p_m M_grate] is
    zero on the states with [X[0] + X[1] = -2500]; [microalgaeDroop] divides
    by [X[1]] and by [X[2] + K_S], which is zero at [S = -0.1].  No state
    with all its components is refused: the derivative is returned, and in
    binary64 it then holds infinities or NaN.  At the initial states of the
    scripts the denominators are not zero and the derivatives are finite. *)
Theorem unguarded_divisions :
  (* where the denominators vanish *)
  (forall x0 : R, Incinerator.wastebed_heat_capacity x0 (- 2500 - x0) = 0)%R /\
  (forall x1 x2 : R,
     MicroalgaeDroop.mu x1
     = MicroalgaeDroop.mu_tilde
       * (MicroalgaeDroop.I
          / (MicroalgaeDroop.I + MicroalgaeDroop.K_sI
             + MicroalgaeDroop.I * MicroalgaeDroop.I / MicroalgaeDroop.K_iI))
       * (1 - MicroalgaeDroop.k_q / x1) /\
     MicroalgaeDroop.rho x2
     = MicroalgaeDroop.rho_max * (x2 / (x2 + MicroalgaeDroop.K_S)))%R /\
  (- 0.1 + MicroalgaeDroop.K_S = 0)%R /\
  (* no state of full length is refused *)
  (forall (A : Type) (SA : Scalar A) (X : list A) (t : A),
     ((6 <= length X)%nat ->
      exists dX, Incinerator.incinerator X t = Some dX) /\
     ((3 <= length X)%nat ->
      exists dX, MicroalgaeDroop.microalgaeDroop X t = Some dX) /\
     ((2 <= length X)%nat ->
      exists dX, TransportTruck.transportTruck X t = Some dX)) /\
  (* the values computed there in binary64 *)
  (exists dX : list float,
     Incinerator.incinerator
       [int (-2500); int 0; int 20; int 0; int 0; int 20] (int 0) = Some dX /\
     nth_error dX 2 = Some infinity /\ forallb is_finite dX = false) /\
  (exists dX : list float,
     MicroalgaeDroop.microalgaeDroop [int 26; int 0; int 0] (int 0) = Some dX /\
     nth_error dX 0 = Some neg_infinity /\ nth_error dX 1 = Some nan /\
     forallb is_finite dX = false) /\
  (exists dX : list float,
     MicroalgaeDroop.microalgaeDroop
       [int 26; decimal 282 2; PrimFloat.opp (decimal 1 1)] (int 0) = Some dX /\
     nth_error dX 1 = Some neg_infinity /\ nth_error dX 2 = Some infinity /\
     forallb is_finite dX = false) /\
  (* the initial states of the scripts *)
  (Incinerator.wastebed_heat_capacity Incinerator.M_ini Incinerator.M_char_ini
   = 2500 /\
   Incinerator.freeboard_heat_capacity Incinerator.M_g_f_ini = 600 /\
   MicroalgaeDroop.Q_ini = 2.82 /\
   MicroalgaeDroop.S_ini + MicroalgaeDroop.K_S = 0.1 /\
   MicroalgaeDroop.I + MicroalgaeDroop.K_sI
   + MicroalgaeDroop.I * MicroalgaeDroop.I / MicroalgaeDroop.K_iI
   = 50 + 2500 / 295 /\
   MicroalgaeDroop.T_h = 1 / 0.45 /\
   TransportTruck.m_total = 3210)%R /\
  (exists dX : list float,
     Incinerator.incinerator Incinerator.X_ini (int 0) = Some dX /\
     forallb is_finite dX = true) /\
  (exists dX : list float,
     MicroalgaeDroop.microalgaeDroop MicroalgaeDroop.X_ini (int 0) = Some dX /\
     forallb is_finite dX = true) /\
  (exists dX : list float,
     TransportTruck.transportTruck TransportTruck.X_ini (int 0) = Some dX /\
     forallb is_finite dX = true).
Proof.
  split.
  { intro x0. unfold_incinerator. cbv [nadd nmul int of_Z R_scalar]. lra. }
  split; [intros x1 x2; split; reflexivity |].
  split.
  { unfold MicroalgaeDroop.K_S. cbv [ndiv decimal of_Z R_scalar]. simpl. lra. }
  split.
  { intros A SA X t. repeat split.
    - apply incinerator_defined.
    - apply microalgaeDroop_defined.
    - apply transportTruck_defined. }
  split; [eexists; split; [reflexivity | vm_compute; repeat split] |].
  split; [eexists; split; [reflexivity | vm_compute; repeat split] |].
  split; [eexists; split; [reflexivity | vm_compute; repeat split] |].
  split.
  { unfold_incinerator.
    unfold MicroalgaeDroop.Q_ini, MicroalgaeDroop.S_ini, MicroalgaeDroop.K_S,
      MicroalgaeDroop.I, MicroalgaeDroop.I_bar, MicroalgaeDroop.K_sI,
      MicroalgaeDroop.K_iI, MicroalgaeDroop.T_h, TransportTruck.m_total,
      TransportTruck.m_truck, TransportTruck.m_u.
    cbv [nadd nmul ndiv int decimal of_Z R_scalar]. simpl.
    repeat split; lra. }
  split; [eexists; split; [reflexivity | vm_compute; reflexivity] |].
  split; [eexists; split; [reflexivity | vm_compute; reflexivity] |].
  eexists; split; [reflexivity | vm_compute; reflexivity].
Qed.

Lemma unguarded_divisions_witness :
  (exists dX : list float,
     Incinerator.incinerator
       [int (-2500); int 0; int 20; int 0; int 0; int 20] (int 0) = Some dX) /\
  (exists dX : list float,
     MicroalgaeDroop.microalgaeDroop [int 26; int 0; int 0] (int 0) = Some dX) /\
  (exists dX : list float,
     TransportTruck.transportTruck [int 0; int 4] (int 0) = Some dX).
Proof.
  destruct unguarded_divisions as (_ & _ & _ & Hdef & _).
  repeat split.
  - apply (proj1 (Hdef float _ _ _)). simpl. lia.
  - apply (proj1 (proj2 (Hdef float _ _ _))). simpl. lia.
  - apply (proj2 (proj2 (Hdef float _ _ _))). simpl. lia.
Defined.

(** ** Droop's model *)

Section Droop.
Local Open Scope R_scope.

Lemma droop_field (x q s t : R) :
  MicroalgaeDroop.microalgaeDroop [x; q; s] t
  = Some [MicroalgaeDroop.mu q * x - (1 / MicroalgaeDroop.T_h) * x;
          MicroalgaeDroop.rho s - MicroalgaeDroop.mu q * q;
          (1 / MicroalgaeDroop.T_h) * (MicroalgaeDroop.S_in - s)
          - MicroalgaeDroop.rho s * x].
Proof. reflexivity. Qed.

Lemma droop_rates (x q s t : R) (dX : list R) :
  MicroalgaeDroop.microalgaeDroop [x; q; s] t = Some dX ->
  dX = [MicroalgaeDroop.mu q * x - (1 / MicroalgaeDroop.T_h) * x;
        MicroalgaeDroop.rho s - MicroalgaeDroop.mu q * q;
        (1 / MicroalgaeDroop.T_h) * (MicroalgaeDroop.S_in - s)
        - MicroalgaeDroop.rho s * x].
Proof. rewrite droop_field. intro E. symmetry. congruence. Qed.

Lemma droop_dilution : 1 / MicroalgaeDroop.T_h = 0.45 /\ MicroalgaeDroop.T_h <> 0.
Proof. unfold_droop. split; lra. Qed.


(** [diagnostic_rate] is the derivative of the diagnostic along a curve. *)
Lemma diagnostic_along_curve (x q s : R -> R) (t dx dq ds : R) :
  derivable_pt_lim x t dx -> derivable_pt_lim q t dq ->
  derivable_pt_lim s t ds ->
  derivable_pt_lim (fun u => Closed.diagnostic (x u) (q u) (s u)) t
    (Closed.diagnostic_rate (x t) (q t) dx dq ds).
Proof.
  intros Hx Hq Hs. unfold Closed.diagnostic, Closed.diagnostic_rate.
  apply derivable_pt_lim_value with (l := ds + (dx * q t + x t * dq)); [| ring].
  apply (derivable_pt_lim_plus s (fun u => x u * q u)); [exact Hs |].
  apply (derivable_pt_lim_mult x q); assumption.
Qed.

Lemma droop_equilibrium (t : R) :
  MicroalgaeDroop.microalgaeDroop [Closed.X_ALG_eq; Closed.Q_eq; Closed.S_eq] t
  = Some [0; 0; 0].
Proof.
  rewrite droop_field. unfold Closed.X_ALG_eq, Closed.Q_eq, Closed.S_eq.
  unfold_droop. real_vector.
Qed.



Lemma vector3_entries (a b c d0 d1 d2 : R) :
  nth_error [a; b; c] 0 = Some d0 -> nth_error [a; b; c] 1 = Some d1 ->
  nth_error [a; b; c] 2 = Some d2 -> d0 = a /\ d1 = b /\ d2 = c.
Proof. simpl. intros E0 E1 E2. repeat split; congruence. Qed.

(** Along a solution the diagnostic is the first-order response. *)
Lemma droop_first_order (x0 q0 s0 T : R) (x q s : R -> R) :
  ODE.solves MicroalgaeDroop.microalgaeDroop [x0; q0; s0] T [x; q; s] ->
  forall t, 0 <= t <= T ->
    Closed.diagnostic (x t) (q t) (s t)
    = Closed.relaxation (Closed.diagnostic x0 q0 s0) t.
Proof.
  intros [Hlen Hsol] t Ht.
  destruct (Hsol 0%nat) as (x' & Ex & Ex0 & Hxc & Hxd); [simpl; lia |].
  destruct (Hsol 1%nat) as (q' & Eq & Eq0 & Hqc & Hqd); [simpl; lia |].
  destruct (Hsol 2%nat) as (s' & Es & Es0 & Hsc & Hsd); [simpl; lia |].
  simpl in Ex, Eq, Es.
  injection Ex as <-. injection Eq as <-. injection Es as <-.
  destruct (vector3_entries _ _ _ _ _ _ Ex0 Eq0 Es0) as (Hx0 & Hq0 & Hs0).
  pose (g := fun u => Closed.diagnostic (x u) (q u) (s u)).
  assert (Hg : g t = MicroalgaeDroop.S_in
                     + (g 0 - MicroalgaeDroop.S_in)
                       * exp (- (1 / MicroalgaeDroop.T_h * t))).
  { apply exponential_of_relaxation with (T := T); [| | exact Ht].
    - intros u Hu. unfold g, Closed.diagnostic.
      apply (continuity_pt_plus s (fun v => x v * q v)); auto.
      apply (continuity_pt_mult x q); auto.
    - intros u Hu.
      destruct (Hxd u Hu) as (dX & dx & Ef & Edx & Hdx).
      destruct (Hqd u Hu) as (dX' & dq & Ef' & Edq & Hdq).
      destruct (Hsd u Hu) as (dX'' & ds & Ef'' & Eds & Hds).
      change (ODE.state_at [x; q; s] u) with [x u; q u; s u] in Ef, Ef', Ef''.
      apply droop_rates in Ef, Ef', Ef''. subst dX dX' dX''.
      destruct (vector3_entries _ _ _ _ _ _ Edx Edq Eds) as (-> & -> & ->).
      eapply derivable_pt_lim_value;
        [apply (diagnostic_along_curve x q s u _ _ _ Hdx Hdq Hds) |].
      unfold g, Closed.diagnostic_rate, Closed.diagnostic. ring. }
  fold (g t). rewrite Hg. unfold g, Closed.relaxation.
  rewrite Hx0, Hq0, Hs0.
  do 3 f_equal. field. apply droop_dilution.
Qed.

Lemma steady_solves (T : R) :
  ODE.solves MicroalgaeDroop.microalgaeDroop
    [Closed.X_ALG_eq; Closed.Q_eq; Closed.S_eq] T Closed.steady.
Proof.
  split; [reflexivity |]. intros i Hi. simpl in Hi.
  destruct i as [| [| [| i]]]; [| | | lia].
  - exists (fun _ => Closed.X_ALG_eq). repeat split.
    + intros t _. apply continuity_pt_const. intros u v. reflexivity.
    + intros t _. exists [0; 0; 0], 0. repeat split.
      * apply droop_equilibrium.
      * apply derivable_pt_lim_const.
  - exists (fun _ => Closed.Q_eq). repeat split.
    + intros t _. apply continuity_pt_const. intros u v. reflexivity.
    + intros t _. exists [0; 0; 0], 0. repeat split.
      * apply droop_equilibrium.
      * apply derivable_pt_lim_const.
  - exists (fun _ => Closed.S_eq). repeat split.
    + intros t _. apply continuity_pt_const. intros u v. reflexivity.
    + intros t _. exists [0; 0; 0], 0. repeat split.
      * apply droop_equilibrium.
      * apply derivable_pt_lim_const.
Qed.


End Droop.

(** ** Droop's model: the two rates *)

Section DroopRates.
Local Open Scope R_scope.

Lemma droop_constants :
  MicroalgaeDroop.k_q = 17 / 10 /\ MicroalgaeDroop.K_S = 1 / 10 /\
  MicroalgaeDroop.rho_max = 47 / 5 /\ MicroalgaeDroop.mu_tilde = 17 / 10 /\
  MicroalgaeDroop.K_CO2 = 3 / 10 /\ MicroalgaeDroop.S_in = 100 /\
  Derived.light_factor = 59 / 69.
Proof.
  unfold Derived.light_factor. unfold_droop. repeat split; lra.
Qed.

Lemma droop_mu_form (q : R) :
  q <> 0 -> MicroalgaeDroop.mu q = 1003 / 690 * ((q - 17 / 10) / q).
Proof. intro Hq. unfold_droop. field. exact Hq. Qed.

Lemma droop_rho_form (s : R) :
  s + 1 / 10 <> 0 ->
  MicroalgaeDroop.rho s = 47 / 5 * (1 - 1 / 10 / (s + 1 / 10)).
Proof. intro Hs. unfold_droop. field. lra. Qed.

Lemma droop_mu_sign (q : R) :
  0 < q ->
  (0 < MicroalgaeDroop.mu q <-> 17 / 10 < q) /\
  (MicroalgaeDroop.mu q = 0 <-> q = 17 / 10) /\
  MicroalgaeDroop.mu q < 1003 / 690.
Proof.
  intro Hq. rewrite droop_mu_form by lra.
  assert (Hi : 0 < / q) by (apply Rinv_0_lt_compat; exact Hq).
  assert (Hiff := quotient_positive (q - 17 / 10) q Hq).
  assert (Hz := quotient_zero (q - 17 / 10) q Hq).
  assert (Hlt : (q - 17 / 10) / q < 1).
  { replace ((q - 17 / 10) / q) with (1 - 17 / 10 * / q) by (field; lra).
    lra. }
  split; [| split].
  - split; intro Hm.
    + assert (0 < q - 17 / 10) by (apply Hiff; lra). lra.
    + assert (0 < (q - 17 / 10) / q) by (apply Hiff; lra). lra.
  - split; intro Hm.
    + assert (E : (q - 17 / 10) / q = 0) by lra. apply Hz in E. lra.
    + assert (E : (q - 17 / 10) / q = 0) by (apply Hz; lra). rewrite E. ring.
  - lra.
Qed.

Lemma droop_mu_increasing (q1 q2 : R) :
  0 < q1 -> q1 < q2 -> MicroalgaeDroop.mu q1 < MicroalgaeDroop.mu q2.
Proof.
  intros H1 H12. rewrite !droop_mu_form by lra.
  assert (Hinv : / q2 < / q1) by (apply Rinv_lt_contravar; nra).
  replace ((q1 - 17 / 10) / q1) with (1 - 17 / 10 * / q1) by (field; lra).
  replace ((q2 - 17 / 10) / q2) with (1 - 17 / 10 * / q2) by (field; lra).
  lra.
Qed.

Lemma droop_rho_range (s : R) :
  0 <= s -> 0 <= MicroalgaeDroop.rho s < 47 / 5.
Proof.
  intro Hs. rewrite droop_rho_form by lra.
  assert (Hi : 0 < / (s + 1 / 10)) by (apply Rinv_0_lt_compat; lra).
  assert (Hle : / (s + 1 / 10) <= / (1 / 10))
    by (apply Rinv_le_contravar; lra).
  assert (E : / (1 / 10) = 10) by (field; lra).
  unfold Rdiv at 3. lra.
Qed.

Lemma droop_rho_increasing (s1 s2 : R) :
  0 <= s1 -> s1 < s2 -> MicroalgaeDroop.rho s1 < MicroalgaeDroop.rho s2.
Proof.
  intros H1 H12. rewrite !droop_rho_form by lra.
  assert (Hinv : / (s2 + 1 / 10) < / (s1 + 1 / 10))
    by (apply Rinv_lt_contravar; nra).
  unfold Rdiv at 3 6. lra.
Qed.

End DroopRates.

(** ** Droop's model: the nutrient balance never overshoots *)

Section Relaxation.
Local Open Scope R_scope.

Lemma relaxation_factor (t1 t2 : R) :
  0 <= t1 -> t1 <= t2 ->
  0 < exp (- t2 / MicroalgaeDroop.T_h)
  /\ exp (- t2 / MicroalgaeDroop.T_h) <= exp (- t1 / MicroalgaeDroop.T_h)
  /\ exp (- t1 / MicroalgaeDroop.T_h) <= 1.
Proof.
  intros H1 H12.
  assert (ET : forall u, - u / MicroalgaeDroop.T_h = - (0.45 * u)).
  { intro u. destruct droop_dilution as [E HT].
    replace (- u / MicroalgaeDroop.T_h)
      with (- (1 / MicroalgaeDroop.T_h * u)) by (field; exact HT).
    rewrite E. reflexivity. }
  rewrite !ET.
  assert (Hmono : forall a b, a <= b -> exp a <= exp b).
  { intros a b [Hlt | ->]; [left; apply exp_increasing; exact Hlt |].
    apply Rle_refl. }
  split; [apply exp_pos |]. split.
  - apply Hmono. lra.
  - rewrite <- exp_0. apply Hmono. lra.
Qed.

Lemma relaxation_between (g0 t : R) :
  0 <= t ->
  (g0 <= MicroalgaeDroop.S_in ->
   g0 <= Closed.relaxation g0 t <= MicroalgaeDroop.S_in) /\
  (MicroalgaeDroop.S_in <= g0 ->
   MicroalgaeDroop.S_in <= Closed.relaxation g0 t <= g0).
Proof.
  intro Ht. unfold Closed.relaxation.
  destruct (relaxation_factor 0 t ltac:(lra) Ht) as (Hpos & _ & _).
  destruct (relaxation_factor t t Ht ltac:(lra)) as (_ & _ & Hle).
  set (e := exp (- t / MicroalgaeDroop.T_h)) in *.
  set (L := MicroalgaeDroop.S_in).
  split; intro Hg; nra.
Qed.

End Relaxation.

(** ** Droop's model: a solution without biomass *)

Section Washout.
Local Open Scope R_scope.





End Washout.

Section ComputedDiagnostic.
Local Open Scope R_scope.



End ComputedDiagnostic.



(** ** The scripts: solver call, unpacking and figures *)

Section Scripts.
Context {A : Type} `{Scalar A}.

Lemma column_length (j : nat) (X : list (list A)) :
  length (Numpy.column j X) = length X.
Proof. unfold Numpy.column. apply length_map. Qed.

Lemma map2_length (op : A -> A -> A) (u v : list A) :
  length u = length v -> length (Numpy.map2 op u v) = length u.
Proof.
  revert v. induction u as [| a u IH]; intros [| b v] E; simpl in *;
    try discriminate; try reflexivity.
  f_equal. apply IH. congruence.
Qed.

(** The transpose of an array whose first row has [d] entries has [d]
    rows, the columns of the array. *)
Lemma transpose_columns (X : list (list A)) (row : list A) (d : nat) :
  hd_error X = Some row -> length row = d ->
  Numpy.transpose X = map (fun j => Numpy.column j X) (seq 0 d).
Proof.
  intros Hhd Hd. destruct X as [| r X']; [discriminate |].
  simpl in Hhd. injection Hhd as ->. subst d. reflexivity.
Qed.

Lemma plot_same_length (x y : list A) :
  length y = length x -> plot x y = Return (x, y).
Proof.
  intro E. unfold plot. rewrite E, Nat.eqb_refl. reflexivity.
Qed.

Lemma truck_plots (t : list A) (X : list (list A)) (row : list A) :
  hd_error X = Some row -> length row = 2%nat -> length X = length t ->
  TransportTruck.plots t X
  = Return [(t, Numpy.column 0 X); (t, Numpy.column 1 X)].
Proof.
  intros Hhd Hrow Hlen. unfold TransportTruck.plots.
  rewrite (transpose_columns X row 2 Hhd Hrow). cbn [map seq].
  rewrite !plot_same_length by (rewrite column_length; exact Hlen).
  reflexivity.
Qed.

Lemma droop_plots (t : list A) (X : list (list A)) (row : list A) :
  hd_error X = Some row -> length row = 3%nat -> length X = length t ->
  MicroalgaeDroop.plots t X
  = Return [(t, Numpy.column 0 X); (t, Numpy.column 1 X);
            (t, Numpy.column 2 X);
            (t, MicroalgaeDroop.m_dot23 (Numpy.column 2 X));
            (t, MicroalgaeDroop.debugging_variable (Numpy.column 0 X)
                  (Numpy.column 1 X) (Numpy.column 2 X))].
Proof.
  intros Hhd Hrow Hlen. unfold MicroalgaeDroop.plots.
  rewrite (transpose_columns X row 3 Hhd Hrow). cbn [map seq].
  assert (Hc : forall j, length (Numpy.column j X) = length t)
    by (intro j; rewrite column_length; exact Hlen).
  rewrite !plot_same_length; try apply Hc; try reflexivity.
  - unfold MicroalgaeDroop.debugging_variable, Numpy.array_add,
      Numpy.array_mul.
    rewrite map2_length; [apply Hc |].
    rewrite map2_length; rewrite !Hc; reflexivity.
  - unfold MicroalgaeDroop.m_dot23, MicroalgaeDroop.rho_series,
      Numpy.scalar_mul, Numpy.array_div, Numpy.add_scalar.
    rewrite !length_map, map2_length; [apply Hc |].
    rewrite length_map. reflexivity.
Qed.

Lemma incinerator_plots (t : list A) (X : list (list A)) (row : list A) :
  hd_error X = Some row -> length row = 6%nat -> length X = length t ->
  Incinerator.plots t X
  = Return [(t, Numpy.column 0 X); (t, Numpy.column 1 X);
            (t, Numpy.column 2 X); (t, Numpy.column 3 X);
            (t, Numpy.column 4 X); (t, Numpy.column 5 X)].
Proof.
  intros Hhd Hrow Hlen. unfold Incinerator.plots.
  rewrite (transpose_columns X row 6 Hhd Hrow). cbn [map seq].
  rewrite !plot_same_length by (rewrite column_length; exact Hlen).
  reflexivity.
Qed.

(** The solver that holds the initial value meets the documentation. *)
Lemma hold_solver_documented : Contract.documented (@Contract.hold_solver A).
Proof.
  split.
  - intros f y0 t mx X info E. unfold Contract.hold_solver in E.
    injection E as <- _. split; [apply length_map |].
    apply Forall_forall. intros row Hin. apply in_map_iff in Hin.
    destruct Hin as (ti & <- & _). reflexivity.
  - intros f y0 t mx X info E Ht. unfold Contract.hold_solver in E.
    injection E as <- _. destruct t; [contradiction | reflexivity].
  - intros f y0 t0 n mx dy _ _. eexists. unfold Contract.hold_solver.
    do 2 f_equal. induction n as [| n IH]; simpl; [reflexivity |].
    f_equal. exact IH.
Qed.

End Scripts.

Section MeshProperties.
Local Open Scope R_scope.

(** The mesh of 1000 points over [[0, T]]: sample [i] is [i T / 999]. *)
Lemma mesh_sample (T : R) (i : nat) :
  (i < 1000)%nat ->
  nth_error (Numpy.linspace 0 T 1000) i = Some (INR i * (T / 999)).
Proof.
  intro Hi. change 1000%nat with (S (S 998)).
  rewrite linspace_nth_error by exact Hi. f_equal.
  rewrite (INR_IZR_INZ 999). change (Z.of_nat 999) with 999%Z.
  rewrite Rminus_0_r. ring.
Qed.


End MeshProperties.



(** ** Degenerate horizon and solver status *)

Section ZeroHorizon.
Context {A : Type} `{Scalar A}.

Lemma column_repeat (j : nat) (row : list A) (n : nat) :
  Numpy.column j (repeat row n) = repeat (nth j row (int 0)) n.
Proof.
  unfold Numpy.column. induction n as [| n IH]; simpl; [reflexivity |].
  f_equal. exact IH.
Qed.

(** On a mesh that stays at the initial time a documented solver returns
    the initial state in every row, and the scripts go on to plot it. *)
Lemma incinerator_constant_mesh (odeint : odeint_type A) (zero : A) :
  Contract.documented odeint ->
  Incinerator.mesh zero = repeat zero 1000 ->
  exists info figures,
    Incinerator.numerical_solution odeint zero
    = Return (repeat Incinerator.X_ini 1000, info) /\
    Incinerator.run odeint zero = Return figures.
Proof.
  intros [_ _ Hrep] Hmesh.
  destruct (incinerator_defined Incinerator.X_ini zero) as [dy Edy];
    [simpl; lia |].
  destruct (Hrep Incinerator.incinerator Incinerator.X_ini zero 1000%nat
              1000%Z dy Edy) as [info Einfo].
  { apply incinerator_shape in Edy.
    destruct Edy as (? & ? & ? & ? & ? & _ & _ & _ & _ & _ & ->). reflexivity. }
  exists info. eexists. unfold Incinerator.run, Incinerator.numerical_solution.
  rewrite Hmesh, Einfo. split; [reflexivity |].
  cbn [obind fst].
  apply (incinerator_plots _ _ Incinerator.X_ini); reflexivity.
Qed.

Lemma droop_constant_mesh (odeint : odeint_type A) (zero : A) :
  Contract.documented odeint ->
  MicroalgaeDroop.mesh zero = repeat zero 1000 ->
  exists info figures,
    MicroalgaeDroop.numerical_solution odeint zero
    = Return (repeat MicroalgaeDroop.X_ini 1000, info) /\
    MicroalgaeDroop.run odeint zero = Return figures.
Proof.
  intros [_ _ Hrep] Hmesh.
  destruct (Hrep MicroalgaeDroop.microalgaeDroop MicroalgaeDroop.X_ini zero
              1000%nat 1000%Z _ eq_refl eq_refl) as [info Einfo].
  exists info. eexists.
  unfold MicroalgaeDroop.run, MicroalgaeDroop.numerical_solution.
  rewrite Hmesh, Einfo. split; [reflexivity |].
  cbn [obind fst].
  apply (droop_plots _ _ MicroalgaeDroop.X_ini); reflexivity.
Qed.

Lemma truck_constant_mesh (odeint : odeint_type A) (zero : A) :
  Contract.documented odeint ->
  TransportTruck.mesh zero = repeat zero 1000 ->
  exists info figures,
    TransportTruck.numerical_solution odeint zero
    = Return (repeat TransportTruck.X_ini 1000, info) /\
    TransportTruck.run odeint zero = Return figures.
Proof.
  intros [_ _ Hrep] Hmesh.
  destruct (Hrep TransportTruck.transportTruck TransportTruck.X_ini zero
              1000%nat 1000%Z _ eq_refl eq_refl) as [info Einfo].
  exists info. eexists.
  unfold TransportTruck.run, TransportTruck.numerical_solution.
  rewrite Hmesh, Einfo. split; [reflexivity |].
  cbn [obind fst].
  apply (truck_plots _ _ TransportTruck.X_ini); reflexivity.
Qed.

End ZeroHorizon.

(** With horizon 0 the mesh over the reals is 1000 times the time 0. *)
Lemma zero_mesh : Numpy.linspace 0%R 0%R 1000 = repeat 0%R 1000.
Proof.
  apply nth_error_ext. intro i.
  destruct (Nat.lt_ge_cases i 1000) as [Hi | Hi].
  - rewrite mesh_sample by exact Hi.
    rewrite nth_error_repeat by exact Hi. f_equal. unfold Rdiv. ring.
  - rewrite (proj2 (nth_error_None _ _));
      [| rewrite linspace_length; exact Hi].
    symmetry. apply nth_error_None. rewrite repeat_length. exact Hi.
Qed.

(** C10: with the simulation time set to 0 the mesh of each script is 1000
    times the time 0 (over the reals and as computed in binary64), and a
    solver that treats repeated time values as [integrate.odeint] documents
    returns, without raising, the trajectory of 1000 copies of the initial
    state, which the script then plots. *)
Theorem zero_horizon_repeats_initial_state :
  (Incinerator.mesh 0%R = repeat 0%R 1000 /\
   MicroalgaeDroop.mesh 0%R = repeat 0%R 1000 /\
   TransportTruck.mesh 0%R = repeat 0%R 1000) /\
  (Incinerator.mesh (int 0 : float) = repeat (int 0) 1000 /\
   MicroalgaeDroop.mesh (int 0 : float) = repeat (int 0) 1000 /\
   TransportTruck.mesh (int 0 : float) = repeat (int 0) 1000) /\
  (forall odeint : odeint_type R,
     Contract.documented odeint ->
     (exists info figures,
        Incinerator.numerical_solution odeint 0%R
        = Return (repeat Incinerator.X_ini 1000, info) /\
        Incinerator.run odeint 0%R = Return figures) /\
     (exists info figures,
        MicroalgaeDroop.numerical_solution odeint 0%R
        = Return (repeat MicroalgaeDroop.X_ini 1000, info) /\
        MicroalgaeDroop.run odeint 0%R = Return figures) /\
     (exists info figures,
        TransportTruck.numerical_solution odeint 0%R
        = Return (repeat TransportTruck.X_ini 1000, info) /\
        TransportTruck.run odeint 0%R = Return figures)) /\
  (forall odeint : odeint_type float,
     Contract.documented odeint ->
     (exists info figures,
        Incinerator.numerical_solution odeint (int 0)
        = Return (repeat Incinerator.X_ini 1000, info) /\
        Incinerator.run odeint (int 0) = Return figures) /\
     (exists info figures,
        MicroalgaeDroop.numerical_solution odeint (int 0)
        = Return (repeat MicroalgaeDroop.X_ini 1000, info) /\
        MicroalgaeDroop.run odeint (int 0) = Return figures) /\
     (exists info figures,
        TransportTruck.numerical_solution odeint (int 0)
        = Return (repeat TransportTruck.X_ini 1000, info) /\
        TransportTruck.run odeint (int 0) = Return figures)).
Proof.
  assert (HR : Incinerator.mesh 0%R = repeat 0%R 1000) by exact zero_mesh.
  assert (HF : Incinerator.mesh (int 0 : float) = repeat (int 0) 1000)
    by (vm_compute; reflexivity).
  split; [repeat split; exact HR |].
  split; [repeat split; exact HF |].
  split.
  - intros odeint Hdoc. repeat split.
    + apply incinerator_constant_mesh; [exact Hdoc | exact HR].
    + apply droop_constant_mesh; [exact Hdoc | exact HR].
    + apply truck_constant_mesh; [exact Hdoc | exact HR].
  - intros odeint Hdoc. repeat split.
    + apply incinerator_constant_mesh; [exact Hdoc | exact HF].
    + apply droop_constant_mesh; [exact Hdoc | exact HF].
    + apply truck_constant_mesh; [exact Hdoc | exact HF].
Qed.

Lemma zero_horizon_repeats_initial_state_witness :
  (exists info figures,
     TransportTruck.numerical_solution Contract.hold_solver 0%R
     = Return (repeat TransportTruck.X_ini 1000, info) /\
     TransportTruck.run Contract.hold_solver 0%R = Return figures) /\
  (exists info figures,
     Incinerator.numerical_solution Contract.hold_solver (int 0 : float)
     = Return (repeat Incinerator.X_ini 1000, info) /\
     Incinerator.run Contract.hold_solver (int 0 : float) = Return figures).
Proof.
  destruct zero_horizon_repeats_initial_state as (_ & _ & HR & HF).
  split.
  - exact (proj2 (proj2 (HR Contract.hold_solver hold_solver_documented))).
  - exact (proj1 (HF Contract.hold_solver hold_solver_documented)).
Defined.

Section Status.
Context {A : Type} `{Scalar A}.

Lemma first_row (X : list (list A)) (n d : nat) :
  length X = S n -> Forall (fun row => length row = d) X ->
  exists row, hd_error X = Some row /\ length row = d.
Proof.
  intros Hlen Hrows. destruct X as [| row X']; [discriminate |].
  exists row. split; [reflexivity |]. inversion Hrows; assumption.
Qed.

End Status.

(** C4, as stated, fails: on a solver call that comes back with the
    excess-work status each of the three scripts still returns its
    figures. *)
Lemma excess_work_is_not_surfaced :
  ~ Contract.aborts_on_excess_work
      (fun odeint : odeint_type float =>
         Incinerator.numerical_solution odeint Incinerator.t_final)
      Incinerator.script /\
  ~ Contract.aborts_on_excess_work
      (fun odeint : odeint_type float =>
         MicroalgaeDroop.numerical_solution odeint MicroalgaeDroop.t_final)
      MicroalgaeDroop.script /\
  ~ Contract.aborts_on_excess_work
      (fun odeint : odeint_type float =>
         TransportTruck.numerical_solution odeint TransportTruck.t_final)
      TransportTruck.script.
Proof.
  repeat split; intro Habort;
    specialize (Habort Contract.exhausted_solver _ _ eq_refl eq_refl);
    vm_compute in Habort; discriminate Habort.
Qed.

(** C4, amended: the scripts pass [mxstep = 1000] and never read the
    [infodict].  When the solver call returns a trajectory, whatever its
    status message, the script goes on to unpack and plot that trajectory,
    and with a trajectory of the documented shape the figures are produced;
    the run stops early exactly when the solver call itself raises, with
    the exception of the solver. *)
Theorem scripts_ignore_solver_status :
  forall (A : Type) (SA : Scalar A) (odeint : odeint_type A),
    (forall (X : list (list A)) (info : infodict),
       (Incinerator.numerical_solution odeint Incinerator.t_final
        = Return (X, info) ->
        Incinerator.script odeint
        = Incinerator.plots (Incinerator.mesh Incinerator.t_final) X) /\
       (MicroalgaeDroop.numerical_solution odeint MicroalgaeDroop.t_final
        = Return (X, info) ->
        MicroalgaeDroop.script odeint
        = MicroalgaeDroop.plots (MicroalgaeDroop.mesh MicroalgaeDroop.t_final)
            X) /\
       (TransportTruck.numerical_solution odeint TransportTruck.t_final
        = Return (X, info) ->
        TransportTruck.script odeint
        = TransportTruck.plots (TransportTruck.mesh TransportTruck.t_final)
            X)) /\
    (forall (X : list (list A)) (info : infodict),
       Contract.documented odeint ->
       (Incinerator.numerical_solution odeint Incinerator.t_final
        = Return (X, info) ->
        is_return (Incinerator.script odeint) = true) /\
       (MicroalgaeDroop.numerical_solution odeint MicroalgaeDroop.t_final
        = Return (X, info) ->
        is_return (MicroalgaeDroop.script odeint) = true) /\
       (TransportTruck.numerical_solution odeint TransportTruck.t_final
        = Return (X, info) ->
        is_return (TransportTruck.script odeint) = true)) /\
    (forall e : string,
       (Incinerator.numerical_solution odeint Incinerator.t_final = Raise e ->
        Incinerator.script odeint = Raise e) /\
       (MicroalgaeDroop.numerical_solution odeint MicroalgaeDroop.t_final
        = Raise e ->
        MicroalgaeDroop.script odeint = Raise e) /\
       (TransportTruck.numerical_solution odeint TransportTruck.t_final
        = Raise e ->
        TransportTruck.script odeint = Raise e)).
Proof.
  intros A SA odeint.
  assert (Hplots :
    forall (X : list (list A)) (info : infodict),
      (Incinerator.numerical_solution odeint Incinerator.t_final
       = Return (X, info) ->
       Incinerator.script odeint
       = Incinerator.plots (Incinerator.mesh Incinerator.t_final) X) /\
      (MicroalgaeDroop.numerical_solution odeint MicroalgaeDroop.t_final
       = Return (X, info) ->
       MicroalgaeDroop.script odeint
       = MicroalgaeDroop.plots (MicroalgaeDroop.mesh MicroalgaeDroop.t_final)
           X) /\
      (TransportTruck.numerical_solution odeint TransportTruck.t_final
       = Return (X, info) ->
       TransportTruck.script odeint
       = TransportTruck.plots (TransportTruck.mesh TransportTruck.t_final)
           X)).
  { intros X info. repeat split; intro E.
    - unfold Incinerator.script, Incinerator.run. rewrite E. reflexivity.
    - unfold MicroalgaeDroop.script, MicroalgaeDroop.run. rewrite E.
      reflexivity.
    - unfold TransportTruck.script, TransportTruck.run. rewrite E.
      reflexivity. }
  split; [exact Hplots |].
  split.
  - intros X info [Hshape _ _]. repeat split; intro E.
    + rewrite (proj1 (Hplots X info) E).
      destruct (Hshape _ _ _ _ _ _ E) as [Hlen Hrows].
      unfold Incinerator.mesh in Hlen. rewrite linspace_length in Hlen.
      destruct (first_row X 999 6 Hlen Hrows) as (row & Hhd & Hrow).
      rewrite (incinerator_plots _ X row Hhd Hrow); [reflexivity |].
      unfold Incinerator.mesh. rewrite linspace_length. exact Hlen.
    + rewrite (proj1 (proj2 (Hplots X info)) E).
      destruct (Hshape _ _ _ _ _ _ E) as [Hlen Hrows].
      unfold MicroalgaeDroop.mesh in Hlen. rewrite linspace_length in Hlen.
      destruct (first_row X 999 3 Hlen Hrows) as (row & Hhd & Hrow).
      rewrite (droop_plots _ X row Hhd Hrow); [reflexivity |].
      unfold MicroalgaeDroop.mesh. rewrite linspace_length. exact Hlen.
    + rewrite (proj2 (proj2 (Hplots X info)) E).
      destruct (Hshape _ _ _ _ _ _ E) as [Hlen Hrows].
      unfold TransportTruck.mesh in Hlen. rewrite linspace_length in Hlen.
      destruct (first_row X 999 2 Hlen Hrows) as (row & Hhd & Hrow).
      rewrite (truck_plots _ X row Hhd Hrow); [reflexivity |].
      unfold TransportTruck.mesh. rewrite linspace_length. exact Hlen.
  - intro e. repeat split; intro E.
    + unfold Incinerator.script, Incinerator.run. rewrite E. reflexivity.
    + unfold MicroalgaeDroop.script, MicroalgaeDroop.run. rewrite E.
      reflexivity.
    + unfold TransportTruck.script, TransportTruck.run. rewrite E.
      reflexivity.
Qed.

Lemma scripts_ignore_solver_status_witness :
  (exists X : list (list float),
     TransportTruck.script Contract.exhausted_solver
     = TransportTruck.plots (TransportTruck.mesh TransportTruck.t_final) X) /\
  is_return
    (Incinerator.script (Contract.hold_solver : odeint_type float)) = true /\
  MicroalgaeDroop.script
    (fun _ _ _ _ => Raise "RuntimeError" : outcome (list (list float) * infodict))
  = Raise "RuntimeError".
Proof.
  split; [| split].
  - eexists.
    exact (proj2 (proj2 (proj1
             (scripts_ignore_solver_status float float_scalar
                Contract.exhausted_solver) _ _)) eq_refl).
  - exact (proj1 (proj1 (proj2
             (scripts_ignore_solver_status float float_scalar
                Contract.hold_solver)) _ _ hold_solver_documented) eq_refl).
  - exact (proj1 (proj2 (proj2 (proj2
             (scripts_ignore_solver_status float float_scalar
                (fun _ _ _ _ => Raise "RuntimeError"))) "RuntimeError"))
             eq_refl).
Defined.

(** * Further properties of the scripts *)

(** ** The derivative functions as functions of the state *)

Section Dimension.
Context {A : Type} `{Scalar A}.

Lemma incinerator_undefined (X : list A) (t : A) :
  (length X < 6)%nat -> Incinerator.incinerator X t = None.
Proof.
  intro Hlen.
  destruct X as [| x0 [| x1 [| x2 [| x3 [| x4 [| x5 X]]]]]];
    simpl in Hlen; try lia; reflexivity.
Qed.

Lemma microalgaeDroop_undefined (X : list A) (t : A) :
  (length X < 3)%nat -> MicroalgaeDroop.microalgaeDroop X t = None.
Proof.
  intro Hlen. destruct X as [| x0 [| x1 [| x2 X]]];
    simpl in Hlen; try lia; reflexivity.
Qed.

Lemma transportTruck_undefined (X : list A) (t : A) :
  (length X < 2)%nat -> TransportTruck.transportTruck X t = None.
Proof.
  intro Hlen. destruct X as [| x0 [| x1 X]];
    simpl in Hlen; try lia; reflexivity.
Qed.

End Dimension.

(** X1: each derivative function raises (the [IndexError] of a subscript)
    exactly on the states shorter than the system (6, 3 and 2 components),
    and otherwise returns a rate vector of exactly that many entries,
    however long the state is. *)
Theorem derivative_functions_dimension :
  forall (A : Type) (SA : Scalar A) (X : list A) (t : A),
    (Incinerator.incinerator X t = None <-> (length X < 6)%nat) /\
    (forall dX, Incinerator.incinerator X t = Some dX -> length dX = 6%nat) /\
    (MicroalgaeDroop.microalgaeDroop X t = None <-> (length X < 3)%nat) /\
    (forall dX, MicroalgaeDroop.microalgaeDroop X t = Some dX ->
                length dX = 3%nat) /\
    (TransportTruck.transportTruck X t = None <-> (length X < 2)%nat) /\
    (forall dX, TransportTruck.transportTruck X t = Some dX ->
                length dX = 2%nat).
Proof.
  intros A SA X t.
  split; [| split; [| split; [| split; [| split]]]].
  - split; [| apply incinerator_undefined].
    intro E. destruct (Nat.lt_ge_cases (length X) 6) as [Hlt | Hge];
      [exact Hlt |].
    destruct (incinerator_defined X t Hge) as [dX E']. congruence.
  - intros dX E. apply incinerator_shape in E.
    destruct E as (? & ? & ? & ? & ? & _ & _ & _ & _ & _ & ->). reflexivity.
  - split; [| apply microalgaeDroop_undefined].
    intro E. destruct (Nat.lt_ge_cases (length X) 3) as [Hlt | Hge];
      [exact Hlt |].
    destruct (microalgaeDroop_defined X t Hge) as [dX E']. congruence.
  - intros dX E.
    destruct X as [| x0 [| x1 [| x2 X]]]; try discriminate E.
    injection E as <-. reflexivity.
  - split; [| apply transportTruck_undefined].
    intro E. destruct (Nat.lt_ge_cases (length X) 2) as [Hlt | Hge];
      [exact Hlt |].
    destruct (transportTruck_defined X t Hge) as [dX E']. congruence.
  - intros dX E.
    destruct X as [| x0 [| x1 X]]; try discriminate E.
    injection E as <-. reflexivity.
Qed.

Lemma derivative_functions_dimension_witness :
  (length [int 0; int 0; int 20; int 0; int 0 : float] < 6)%nat /\
  length [int 4; ndiv TransportTruck.F TransportTruck.m_total : float]
  = 2%nat.
Proof.
  split.
  - apply (proj1 (proj1 (derivative_functions_dimension float float_scalar
                           [int 0; int 0; int 20; int 0; int 0] (int 0)))).
    reflexivity.
  - apply (proj2 (proj2 (proj2 (proj2 (proj2
             (derivative_functions_dimension float float_scalar
                [int 0; int 4; int 7] (int 0))))))).
    reflexivity.
Defined.

(** ** Incinerator: what the rates depend on *)

Section IncineratorRates.
Local Open Scope R_scope.

(** The two temperature rates in lowest terms. *)
Lemma incinerator_temperature_rates (x0 x1 x2 x3 x4 x5 t : R) :
  exists d0 d1 d3 d4,
    Incinerator.incinerator [x0; x1; x2; x3; x4; x5] t
    = Some [d0; d1; 75 * (x2 + 8) / (x0 + x1 + 2500); d3; d4;
            (10 * x2 - 25 * x5 + 710) / (5 * (x4 + 120))].
Proof.
  do 4 eexists. unfold Incinerator.incinerator. simpl.
  unfold_incinerator. cbv [nadd nsub nmul ndiv nneg int of_Z R_scalar].
  apply f_equal.
  repeat (apply (f_equal2 (@cons R)); [try reflexivity |]);
    try reflexivity; (f_equal; lra).
Qed.

End IncineratorRates.

(** X2: [incinerator] never reads the gas mass in the wastebed [X[3]], nor
    any entry after the sixth, and it reads the waste and char masses only
    through their sum: states that agree on [X[0] + X[1]], [X[2]], [X[4]]
    and [X[5]] get the same rates. *)
Theorem incinerator_reads_four_quantities :
  (forall (A : Type) (SA : Scalar A) (x0 x1 x2 x3 y3 x4 x5 : A)
          (rest rest' : list A) (t t' : A),
     Incinerator.incinerator (x0 :: x1 :: x2 :: x3 :: x4 :: x5 :: rest) t
     = Incinerator.incinerator (x0 :: x1 :: x2 :: y3 :: x4 :: x5 :: rest') t') /\
  (forall (x0 x1 y0 y1 x2 x3 y3 x4 x5 t : R),
     (x0 + x1 = y0 + y1)%R ->
     Incinerator.incinerator [x0; x1; x2; x3; x4; x5] t
     = Incinerator.incinerator [y0; y1; x2; y3; x4; x5] t).
Proof.
  split; [intros; reflexivity |].
  intros x0 x1 y0 y1 x2 x3 y3 x4 x5 t Hsum.
  destruct (incinerator_temperature_rates x0 x1 x2 x3 x4 x5 t)
    as (d0 & d1 & d3 & d4 & E).
  destruct (incinerator_temperature_rates y0 y1 x2 y3 x4 x5 t)
    as (e0 & e1 & e3 & e4 & E').
  destruct (incinerator_mass_rates _ _ _ E) as (H0 & H1 & H3 & H4).
  destruct (incinerator_mass_rates _ _ _ E') as (H0' & H1' & H3' & H4').
  cbn [nth_error] in H0, H1, H3, H4, H0', H1', H3', H4'.
  rewrite E, E'. rewrite Hsum. congruence.
Qed.

Lemma incinerator_reads_four_quantities_witness :
  Incinerator.incinerator [30; 10; 20; 0; 0; 20]%R 0%R
  = Incinerator.incinerator [15; 25; 20; 7; 0; 20]%R 0%R.
Proof.
  apply (proj2 incinerator_reads_four_quantities). lra.
Defined.

(** X3: on the states with nonnegative masses the two denominators of
    [incinerator] are at least [2500] and [600], so no division by zero
    occurs there; along the linear masses of the exact solution they are
    [2500 + 21 t] and [600 + 15 t]. *)
Theorem incinerator_heat_capacities_positive :
  (forall x0 x1 x4 : R,
     (0 <= x0)%R -> (0 <= x1)%R -> (0 <= x4)%R ->
     (2500 <= Incinerator.wastebed_heat_capacity x0 x1)%R /\
     (600 <= Incinerator.freeboard_heat_capacity x4)%R) /\
  (forall t : R,
     Incinerator.wastebed_heat_capacity
       (Closed.waste_mass t) (Closed.char_mass t) = (2500 + 21 * t)%R /\
     Incinerator.freeboard_heat_capacity (Closed.gas_mass_freeboard t)
     = (600 + 15 * t)%R).
Proof.
  split.
  - intros x0 x1 x4 H0 H1 H4. unfold_incinerator.
    cbv [nadd nmul int of_Z R_scalar]. split; lra.
  - intro t. unfold Closed.waste_mass, Closed.char_mass,
      Closed.gas_mass_freeboard.
    unfold_incinerator. cbv [nadd nmul int of_Z R_scalar]. split; lra.
Qed.

Lemma incinerator_heat_capacities_positive_witness :
  (2500 <= Incinerator.wastebed_heat_capacity 3600 180)%R /\
  (600 <= Incinerator.freeboard_heat_capacity 540)%R.
Proof.
  apply (proj1 incinerator_heat_capacities_positive); lra.
Defined.

(** X4: in lowest terms the wastebed-temperature rate is
    [75 (X[2] + 8) / (X[0] + X[1] + 2500)] and the freeboard-temperature
    rate is [(10 X[2] - 25 X[5] + 710) / (5 (X[4] + 120))].  With positive
    denominators the wastebed temperature rises exactly above [-8], it has
    no steady value at any higher temperature, and the freeboard
    temperature rises exactly below [0.4 X[2] + 28.4] and rests only
    there. *)
Theorem incinerator_temperature_trends :
  forall (x0 x1 x2 x3 x4 x5 t : R),
    exists dTw dTg : R,
      (exists d0 d1 d3 d4,
         Incinerator.incinerator [x0; x1; x2; x3; x4; x5] t
         = Some [d0; d1; dTw; d3; d4; dTg]) /\
      dTw = (75 * (x2 + 8) / (x0 + x1 + 2500))%R /\
      dTg = ((10 * x2 - 25 * x5 + 710) / (5 * (x4 + 120)))%R /\
      ((0 < x0 + x1 + 2500)%R ->
       ((0 < dTw)%R <-> (- 8 < x2)%R) /\ (dTw = 0%R <-> x2 = (- 8)%R)) /\
      ((0 < x4 + 120)%R ->
       ((0 < dTg)%R <-> (x5 < 0.4 * x2 + 28.4)%R) /\
       (dTg = 0%R <-> x5 = (0.4 * x2 + 28.4)%R)).
Proof.
  intros x0 x1 x2 x3 x4 x5 t.
  destruct (incinerator_temperature_rates x0 x1 x2 x3 x4 x5 t)
    as (d0 & d1 & d3 & d4 & E).
  do 2 eexists. split; [exists d0, d1, d3, d4; exact E |].
  split; [reflexivity |]. split; [reflexivity |].
  split; intro Hpos.
  - split.
    + rewrite quotient_positive by exact Hpos. split; intro; lra.
    + rewrite quotient_zero by exact Hpos. split; intro; lra.
  - assert (Hd : (0 < 5 * (x4 + 120))%R) by lra. split.
    + rewrite quotient_positive by exact Hd. split; intro; lra.
    + rewrite quotient_zero by exact Hd. split; intro; lra.
Qed.

Lemma incinerator_temperature_trends_witness :
  exists dTw dTg : R,
    (exists d0 d1 d3 d4,
       Incinerator.incinerator [0; 0; 20; 0; 0; 20]%R 0%R
       = Some [d0; d1; dTw; d3; d4; dTg]) /\
    (0 < dTw)%R /\ (0 < dTg)%R.
Proof.
  destruct (incinerator_temperature_trends 0 0 20 0 0 20 0)
    as (dTw & dTg & E & _ & _ & Hw & Hg).
  exists dTw, dTg. split; [exact E |]. split.
  - apply (proj1 (Hw ltac:(lra))). lra.
  - apply (proj1 (Hg ltac:(lra))). lra.
Defined.

(** ** Incinerator: the wastebed temperature *)

Section WastebedTemperature.
Local Open Scope R_scope.

(** The derivative of a power of an affine function. *)
Lemma derivable_pt_lim_affine_power (c a t : R) :
  0 < 1 + a * t ->
  derivable_pt_lim (fun s => Rpower (1 + a * s) c) t
    (c * a / (1 + a * t) * Rpower (1 + a * t) c).
Proof.
  intro Hpos. unfold Rpower.
  apply derivable_pt_lim_value
    with (l := exp (c * ln (1 + a * t)) * (c * (/ (1 + a * t) * a)));
    [| field; lra].
  apply (derivable_pt_lim_comp (fun s => c * ln (1 + a * s)) exp).
  - apply (derivable_pt_lim_scal (fun s => ln (1 + a * s)) c).
    apply (derivable_pt_lim_comp (fun s => 1 + a * s) ln).
    + apply derivable_pt_lim_affine.
    + apply derivable_pt_lim_ln. exact Hpos.
  - apply derivable_pt_lim_exp.
Qed.

Lemma wastebed_temp_derivative (t : R) :
  0 <= t ->
  derivable_pt_lim Derived.wastebed_temp t
    (75 * (Derived.wastebed_temp t + 8) / (20 * t + t + 2500)).
Proof.
  intro Ht. unfold Derived.wastebed_temp.
  assert (Hpos : 0 < 1 + 21 / 2500 * t) by lra.
  apply derivable_pt_lim_value
    with (l := (0 * Rpower (1 + 21 / 2500 * t) (25 / 7)
                + 28 * (25 / 7 * (21 / 2500) / (1 + 21 / 2500 * t)
                        * Rpower (1 + 21 / 2500 * t) (25 / 7))) - 0);
    [| field; lra].
  apply (derivable_pt_lim_minus
           (fun s => 28 * Rpower (1 + 21 / 2500 * s) (25 / 7)) (fun _ => 8)).
  - apply (derivable_pt_lim_mult (fun _ => 28)
             (fun s => Rpower (1 + 21 / 2500 * s) (25 / 7))).
    + apply derivable_pt_lim_const.
    + apply derivable_pt_lim_affine_power. exact Hpos.
  - apply derivable_pt_lim_const.
Qed.

Lemma wastebed_temp_start : Derived.wastebed_temp 0 = 20.
Proof.
  unfold Derived.wastebed_temp, Rpower.
  rewrite Rmult_0_r, Rplus_0_r, ln_1, Rmult_0_r, exp_0. lra.
Qed.

(** The wastebed rate read off a state. *)
Lemma incinerator_wastebed_rate (X : list R) (t : R) (dX : list R) (d : R) :
  Incinerator.incinerator X t = Some dX -> nth_error dX 2 = Some d ->
  exists x0 x1 x2,
    nth_error X 0 = Some x0 /\ nth_error X 1 = Some x1 /\
    nth_error X 2 = Some x2 /\ d = 75 * (x2 + 8) / (x0 + x1 + 2500).
Proof.
  intros E Ed. apply incinerator_shape in E.
  destruct E as (x0 & x1 & x2 & x4 & x5 & E0 & E1 & E2 & _ & _ & ->).
  exists x0, x1, x2. repeat (split; [assumption |]).
  cbn [nth_error] in Ed.
  assert (Ed' : Some (75 * (x2 + 8) / (x0 + x1 + 2500)) = Some d).
  { rewrite <- Ed. unfold_incinerator.
    cbv [nadd nsub nmul ndiv int of_Z R_scalar]. do 2 f_equal; lra. }
  congruence.
Qed.

(** The heated trajectory obeys the first three incinerator equations. *)
Lemma heated_solves (T : R) (i : nat) :
  In i [0; 1; 2]%nat ->
  ODE.solves_component Incinerator.incinerator Incinerator.X_ini T
    Derived.heated i.
Proof.
  intro Hi.
  assert (Hdef : forall t, exists dX,
             Incinerator.incinerator (ODE.state_at Derived.heated t) t
             = Some dX)
    by (intro t; apply incinerator_defined; simpl; lia).
  assert (E0 := proj1 incinerator_initial_state).
  simpl in Hi. destruct Hi as [<- | [<- | [<- | []]]].
  - exists Closed.waste_mass. repeat split.
    + rewrite E0. simpl. f_equal. unfold Closed.waste_mass. ring.
    + intros t _. apply continuity_of_derivable with (d := 20).
      unfold Closed.waste_mass.
      apply derivable_pt_lim_value with (l := 0 * t + 20 * 1); [| ring].
      apply (derivable_pt_lim_mult (fun _ => 20) (fun s => s));
        [apply derivable_pt_lim_const | apply derivable_pt_lim_id].
    + intros t _. destruct (Hdef t) as [dX E]. exists dX, 20.
      split; [exact E |]. split; [apply (incinerator_mass_rates _ _ _ E) |].
      unfold Closed.waste_mass.
      apply derivable_pt_lim_value with (l := 0 * t + 20 * 1); [| ring].
      apply (derivable_pt_lim_mult (fun _ => 20) (fun s => s));
        [apply derivable_pt_lim_const | apply derivable_pt_lim_id].
  - exists Closed.char_mass. repeat split.
    + intros t _. apply continuity_of_derivable with (d := 1).
      apply derivable_pt_lim_id.
    + intros t _. destruct (Hdef t) as [dX E]. exists dX, 1.
      split; [exact E |]. split; [apply (incinerator_mass_rates _ _ _ E) |].
      apply derivable_pt_lim_id.
  - exists Derived.wastebed_temp. split; [reflexivity |]. split.
    { rewrite E0. simpl. f_equal. symmetry. apply wastebed_temp_start. }
    split.
    + intros t Ht. eapply continuity_of_derivable.
      apply wastebed_temp_derivative. lra.
    + intros t Ht. destruct (Hdef t) as [dX E].
      destruct (incinerator_shape _ _ _ E)
        as (x0 & x1 & x2 & x4 & x5 & _ & _ & _ & _ & _ & EdX).
      assert (Hlen : exists d, nth_error dX 2 = Some d)
        by (rewrite EdX; eexists; reflexivity).
      destruct Hlen as [d Ed].
      exists dX, d. split; [exact E |]. split; [exact Ed |].
      destruct (incinerator_wastebed_rate _ _ _ _ E Ed)
        as (y0 & y1 & y2 & H0 & H1 & H2 & ->).
      simpl in H0, H1, H2.
      injection H0 as <-. injection H1 as <-. injection H2 as <-.
      unfold Closed.waste_mass, Closed.char_mass.
      apply wastebed_temp_derivative. lra.
Qed.

End WastebedTemperature.

Section WastebedUniqueness.
Local Open Scope R_scope.

Lemma wastebed_temp_unique
  (T : R) (xs : ODE.trajectory) (M Mc Tw : R -> R) :
  ODE.solves_component Incinerator.incinerator Incinerator.X_ini T xs 0 ->
  ODE.solves_component Incinerator.incinerator Incinerator.X_ini T xs 1 ->
  ODE.solves_component Incinerator.incinerator Incinerator.X_ini T xs 2 ->
  nth_error xs 0 = Some M -> nth_error xs 1 = Some Mc ->
  nth_error xs 2 = Some Tw ->
  forall t, 0 <= t <= T -> Tw t = Derived.wastebed_temp t.
Proof.
  intros S0 S1 S2 EM EMc ETw t Ht.
  assert (Hrate := incinerator_mass_rates).
  assert (E0 := proj1 incinerator_initial_state).
  assert (HM : forall u, 0 <= u <= T -> M u = 0 + 20 * u).
  { intros u Hu.
    apply (constant_rate_component Incinerator.incinerator
             Incinerator.X_ini T xs 0 20 0 M
             (fun X v dX E => ltac:(apply (Hrate _ _ _ E)))); auto;
      try (rewrite E0; reflexivity). }
  assert (HMc : forall u, 0 <= u <= T -> Mc u = 0 + 1 * u).
  { intros u Hu.
    apply (constant_rate_component Incinerator.incinerator
             Incinerator.X_ini T xs 1 1 0 Mc
             (fun X v dX E => ltac:(apply (Hrate _ _ _ E)))); auto;
      try (rewrite E0; reflexivity). }
  destruct S2 as (Tw' & ETw' & Hini & Hcont & Hder).
  rewrite ETw in ETw'. injection ETw' as <-.
  assert (HT0 : Tw 0 = 20).
  { rewrite E0 in Hini. simpl in Hini. congruence. }
  pose (P := fun s => Rpower (1 + 21 / 2500 * s) (- (25 / 7))).
  assert (HP : forall u, 0 <= u ->
             derivable_pt_lim P u
               (- (25 / 7) * (21 / 2500) / (1 + 21 / 2500 * u) * P u)).
  { intros u Hu. unfold P. apply derivable_pt_lim_affine_power. lra. }
  pose (h := fun s => (Tw s + 8) * P s).
  assert (Hconst : h t = h 0).
  { apply constant_of_zero_derivative with (b := T); [| | exact Ht].
    - intros u Hu. unfold h.
      apply (continuity_pt_mult (fun s => Tw s + 8) P).
      + apply (continuity_pt_plus Tw (fun _ => 8)); [apply Hcont; exact Hu |].
        apply continuity_pt_const. intros v w. reflexivity.
      + eapply continuity_of_derivable. apply HP. lra.
    - intros u Hu.
      destruct (Hder u Hu) as (dX & d & Ef & Ed & Hd).
      destruct (incinerator_wastebed_rate _ _ _ _ Ef Ed)
        as (x0 & x1 & x2 & H0 & H1 & H2 & ->).
      unfold ODE.state_at in H0, H1, H2.
      rewrite nth_error_map in H0, H1, H2.
      rewrite EM in H0. rewrite EMc in H1. rewrite ETw in H2.
      simpl in H0, H1, H2.
      injection H0 as <-. injection H1 as <-. injection H2 as <-.
      rewrite HM, HMc in Hd by lra.
      unfold h.
      apply derivable_pt_lim_value
        with (l := (75 * (Tw u + 8) / (0 + 20 * u + (0 + 1 * u) + 2500) + 0)
                   * P u
                   + (Tw u + 8)
                     * (- (25 / 7) * (21 / 2500) / (1 + 21 / 2500 * u) * P u));
        [| field; lra].
      apply (derivable_pt_lim_mult (fun s => Tw s + 8) P).
      + apply (derivable_pt_lim_plus Tw (fun _ => 8)); [exact Hd |].
        apply derivable_pt_lim_const.
      + apply HP. lra. }
  unfold h, P in Hconst.
  rewrite HT0, Rmult_0_r, Rplus_0_r in Hconst.
  rewrite (Rpower_Ropp 1), Rpower_Ropp in Hconst.
  assert (H1 : Rpower 1 (25 / 7) = 1).
  { unfold Rpower. rewrite ln_1, Rmult_0_r. apply exp_0. }
  rewrite H1 in Hconst.
  assert (Hp : 0 < Rpower (1 + 21 / 2500 * t) (25 / 7))
    by (unfold Rpower; apply exp_pos).
  unfold Derived.wastebed_temp.
  assert (Hq : Tw t + 8 = 28 * Rpower (1 + 21 / 2500 * t) (25 / 7)).
  { apply Rmult_eq_reg_r with (r := / Rpower (1 + 21 / 2500 * t) (25 / 7)).
    - rewrite Hconst. field. lra.
    - apply Rinv_neq_0_compat. lra. }
  lra.
Qed.

Lemma wastebed_temp_increasing (t1 t2 : R) :
  0 <= t1 -> t1 < t2 -> Derived.wastebed_temp t1 < Derived.wastebed_temp t2.
Proof.
  intros H1 H12. unfold Derived.wastebed_temp.
  assert (Rpower (1 + 21 / 2500 * t1) (25 / 7)
          < Rpower (1 + 21 / 2500 * t2) (25 / 7))
    by (apply Rlt_Rpower_l; lra).
  lra.
Qed.

End WastebedUniqueness.

(** X5: with the waste and char masses [20 t] and [t], the third
    incinerator equation is solved by the wastebed temperature
    [28 (1 + 21 t / 2500)^(25/7) - 8], which starts at the initial 20 and
    rises strictly; and in any trajectory that obeys the first three
    equations from [X_ini] the wastebed temperature is that function on
    the whole interval. *)
Theorem wastebed_temperature_closed_form :
  Derived.wastebed_temp 0 = 20%R /\
  (forall t1 t2 : R,
     (0 <= t1)%R -> (t1 < t2)%R ->
     (Derived.wastebed_temp t1 < Derived.wastebed_temp t2)%R) /\
  (forall (T : R) (i : nat),
     In i [0; 1; 2]%nat ->
     ODE.solves_component Incinerator.incinerator Incinerator.X_ini T
       Derived.heated i) /\
  (forall (T : R) (xs : ODE.trajectory) (Tw : R -> R),
     (forall i : nat,
        In i [0; 1; 2]%nat ->
        ODE.solves_component Incinerator.incinerator Incinerator.X_ini T
          xs i) ->
     nth_error xs 2 = Some Tw ->
     forall t : R, (0 <= t <= T)%R -> Tw t = Derived.wastebed_temp t).
Proof.
  split; [exact wastebed_temp_start |].
  split; [exact wastebed_temp_increasing |].
  split; [exact heated_solves |].
  intros T xs Tw Hsol ETw t Ht.
  assert (S0 := Hsol 0%nat ltac:(simpl; auto)).
  assert (S1 := Hsol 1%nat ltac:(simpl; auto)).
  assert (S2 := Hsol 2%nat ltac:(simpl; auto)).
  destruct S0 as (M & EM & S0'). destruct S1 as (Mc & EMc & S1').
  apply (wastebed_temp_unique T xs M Mc Tw); auto;
    try solve [exists M; split; assumption
              | exists Mc; split; assumption
              | apply Hsol; simpl; auto].
Qed.

Lemma wastebed_temperature_closed_form_witness :
  (Derived.wastebed_temp 0 < Derived.wastebed_temp 180)%R /\
  ODE.solves_component Incinerator.incinerator Incinerator.X_ini
    Incinerator.t_final Derived.heated 2 /\
  Derived.wastebed_temp 60 = Derived.wastebed_temp 60.
Proof.
  destruct wastebed_temperature_closed_form as (_ & Hinc & Hsol & Huniq).
  split; [apply Hinc; lra |]. split.
  - apply Hsol. simpl. auto.
  - apply (Huniq Incinerator.t_final Derived.heated Derived.wastebed_temp).
    + intros i Hi. apply Hsol. exact Hi.
    + reflexivity.
    + rewrite (proj2 incinerator_initial_state). lra.
Defined.

(** X6: the growth rate [mu] of [microalgaeDroop], as a function of the
    internal quota [Q = X[1] > 0]: it vanishes exactly at the subsistence
    quota [k_q], is positive exactly above it, increases with [Q] and stays
    below [mu_tilde] times the light factor
    [I / (I + K_sI + I^2 / K_iI) = 59/69]. *)
Theorem droop_growth_rate_shape :
  Derived.light_factor = (59 / 69)%R /\
  (forall q : R,
     (0 < q)%R ->
     ((0 < MicroalgaeDroop.mu q)%R <-> (MicroalgaeDroop.k_q < q)%R) /\
     (MicroalgaeDroop.mu q = 0%R <-> q = MicroalgaeDroop.k_q) /\
     (MicroalgaeDroop.mu q
      < MicroalgaeDroop.mu_tilde * Derived.light_factor)%R) /\
  (forall q1 q2 : R,
     (0 < q1)%R -> (q1 < q2)%R ->
     (MicroalgaeDroop.mu q1 < MicroalgaeDroop.mu q2)%R).
Proof.
  destruct droop_constants as (Ek & _ & _ & Em & _ & _ & El).
  split; [exact El |]. split; [| exact droop_mu_increasing].
  intros q Hq. rewrite Ek, Em, El.
  destruct (droop_mu_sign q Hq) as (H1 & H2 & H3).
  split; [exact H1 |]. split; [exact H2 |]. lra.
Qed.

Lemma droop_growth_rate_shape_witness :
  (0 < MicroalgaeDroop.mu 2.82)%R /\
  (MicroalgaeDroop.mu 2 < MicroalgaeDroop.mu 2.82)%R.
Proof.
  destruct droop_growth_rate_shape as (_ & Hsign & Hinc).
  split.
  - apply (proj1 (Hsign 2.82%R ltac:(lra))).
    rewrite (proj1 droop_constants). lra.
  - apply Hinc; lra.
Defined.

(** X7: the uptake rate [rho] of [microalgaeDroop], as a function of the
    substrate [S = X[2] >= 0]: it is zero at [S = 0], half of [rho_max] at
    [S = K_S], increases with [S] and stays below [rho_max]. *)
Theorem droop_uptake_rate_shape :
  (MicroalgaeDroop.rho 0 = 0)%R /\
  (MicroalgaeDroop.rho MicroalgaeDroop.K_S = MicroalgaeDroop.rho_max / 2)%R /\
  (forall s : R,
     (0 <= s)%R ->
     (0 <= MicroalgaeDroop.rho s < MicroalgaeDroop.rho_max)%R) /\
  (forall s1 s2 : R,
     (0 <= s1)%R -> (s1 < s2)%R ->
     (MicroalgaeDroop.rho s1 < MicroalgaeDroop.rho s2)%R).
Proof.
  destruct droop_constants as (_ & EK & Er & _).
  split; [| split; [| split; [| exact droop_rho_increasing]]].
  - rewrite droop_rho_form by lra. field.
  - rewrite EK, Er. rewrite droop_rho_form by lra. field.
  - intros s Hs. rewrite Er. apply droop_rho_range. exact Hs.
Qed.

Lemma droop_uptake_rate_shape_witness :
  (0 <= MicroalgaeDroop.rho 100 < MicroalgaeDroop.rho_max)%R /\
  (MicroalgaeDroop.rho 0 < MicroalgaeDroop.rho 100)%R.
Proof.
  destruct droop_uptake_rate_shape as (_ & _ & Hrange & Hinc).
  split; [apply Hrange; lra | apply Hinc; lra].
Defined.

(** X8: on the boundary of the region [X_ALG >= 0], [Q >= k_q], [S >= 0]
    the [microalgaeDroop] vector field does not point outwards: without
    biomass no biomass appears, at the subsistence quota the quota does not
    fall, and without substrate the substrate is refilled at the rate
    [S_in / T_h = 45] whatever the other two states are. *)
Theorem droop_boundary_rates :
  (forall q s t : R,
     q <> 0%R ->
     exists dq ds : R,
       MicroalgaeDroop.microalgaeDroop [0%R; q; s] t = Some [0%R; dq; ds]) /\
  (forall x s t : R,
     (0 <= s)%R ->
     exists dx dq ds : R,
       MicroalgaeDroop.microalgaeDroop [x; MicroalgaeDroop.k_q; s] t
       = Some [dx; dq; ds] /\ (0 <= dq)%R) /\
  (forall x q t : R,
     exists dx dq : R,
       MicroalgaeDroop.microalgaeDroop [x; q; 0%R] t = Some [dx; dq; 45%R]).
Proof.
  destruct droop_constants as (Ek & _ & _ & _ & _ & ES & _).
  split; [| split].
  - intros q s t _. do 2 eexists. rewrite droop_field.
    apply f_equal. apply (f_equal2 (@cons R)); [ring | reflexivity].
  - intros x s t Hs. do 3 eexists. split; [apply droop_field |].
    assert (Hmu : MicroalgaeDroop.mu MicroalgaeDroop.k_q = 0%R).
    { rewrite Ek. apply (proj1 (proj2 (droop_mu_sign (17 / 10) ltac:(lra)))).
      reflexivity. }
    rewrite Hmu. pose proof (droop_rho_range s Hs). lra.
  - intros x q t. do 2 eexists. rewrite droop_field.
    apply f_equal.
    apply (f_equal2 (@cons R)); [reflexivity |].
    apply (f_equal2 (@cons R)); [reflexivity |].
    apply (f_equal2 (@cons R)); [| reflexivity].
    rewrite (proj1 droop_dilution), ES.
    rewrite droop_rho_form by lra.
    replace (47 / 5 * (1 - 1 / 10 / (0 + 1 / 10)))%R with 0%R by (field; lra).
    lra.
Qed.

Lemma droop_boundary_rates_witness :
  (exists dq ds : R,
     MicroalgaeDroop.microalgaeDroop [0; 2.82; 0]%R 0%R
     = Some [0%R; dq; ds]) /\
  (exists dx dq ds : R,
     MicroalgaeDroop.microalgaeDroop [26%R; MicroalgaeDroop.k_q; 3%R] 0%R
     = Some [dx; dq; ds] /\ (0 <= dq)%R).
Proof.
  split.
  - apply (proj1 droop_boundary_rates). lra.
  - apply (proj1 (proj2 droop_boundary_rates)). lra.
Defined.

(** ** Droop's model: steady states *)

Section DroopSteadyStates.
Local Open Scope R_scope.

Lemma droop_washout (t : R) :
  MicroalgaeDroop.microalgaeDroop [0; Derived.Q_washout; 100] t
  = Some [0; 0; 0].
Proof.
  rewrite droop_field. unfold Derived.Q_washout. unfold_droop. real_vector.
Qed.

(** From the value of the reciprocal to the value. *)
Lemma of_reciprocal (a c : R) : / a = c -> c <> 0 -> a = / c.
Proof. intros E Hc. rewrite <- E, Rinv_inv. reflexivity. Qed.

Lemma droop_steady_state_cases (x q s t : R) :
  q <> 0 -> s <> - MicroalgaeDroop.K_S ->
  MicroalgaeDroop.microalgaeDroop [x; q; s] t = Some [0; 0; 0] ->
  (x = Closed.X_ALG_eq /\ q = Closed.Q_eq /\ s = Closed.S_eq) \/
  (x = 0 /\ q = Derived.Q_washout /\ s = 100).
Proof.
  intros Hq Hs E. rewrite droop_field in E.
  destruct droop_constants as (_ & EK & _ & _ & _ & ES & _).
  rewrite EK in Hs. rewrite (proj1 droop_dilution), ES in E.
  assert (Hs' : s + 1 / 10 <> 0) by lra.
  assert (Hmq : MicroalgaeDroop.mu q * q = 1003 / 690 * (q - 17 / 10))
    by (rewrite droop_mu_form by exact Hq; field; exact Hq).
  assert (Hr := droop_rho_form s Hs').
  set (m := MicroalgaeDroop.mu q) in *.
  set (r := MicroalgaeDroop.rho s) in *.
  pose (v := / (s + 1 / 10)).
  assert (Hr' : r = 47 / 5 * (1 - 1 / 10 * v))
    by (rewrite Hr; unfold v; field; lra).
  assert (E1 : m * x - 0.45 * x = 0) by congruence.
  assert (E2 : r - m * q = 0) by congruence.
  assert (E3 : 0.45 * (100 - s) - r * x = 0) by congruence.
  assert (Hcase : x <> 0 \/ x = 0)
    by (destruct (Req_dec x 0); [right | left]; assumption).
  destruct Hcase as [Hx | Hx].
  - left.
    assert (Hm : m = 0.45).
    { assert (P : (m - 0.45) * x = 0) by lra.
      apply Rmult_integral in P. destruct P; [lra | contradiction]. }
    assert (Eq : q = 17051 / 6925) by (rewrite Hm in Hmq; lra).
    assert (Er : r = 0.45 * (17051 / 6925)) by (rewrite Hm, Eq in E2; lra).
    assert (Ev : v = 11484410 / 1301900) by lra.
    assert (Es : s + 1 / 10 = / (11484410 / 1301900))
      by (apply of_reciprocal; [exact Ev | lra]).
    assert (Es' : s = 153459 / 11484410).
    { assert (/ (11484410 / 1301900) = 1301900 / 11484410) by (field; lra).
      lra. }
    unfold Closed.X_ALG_eq, Closed.Q_eq, Closed.S_eq.
    split; [| split; assumption].
    rewrite Er, Es' in E3.
    apply Rmult_eq_reg_l with (r := 0.45 * (17051 / 6925)); [| lra].
    replace (0.45 * (17051 / 6925)
             * ((100 - 153459 / 11484410) / (17051 / 6925)))
      with (0.45 * (100 - 153459 / 11484410)) by (field; lra).
    lra.
  - right. subst x.
    assert (Es : s = 100) by lra.
    split; [reflexivity |]. split; [| exact Es].
    assert (Ev : v = / (100 + 1 / 10)) by (unfold v; rewrite Es; reflexivity).
    assert (Ev' : v = 10 / 1001) by (rewrite Ev; field; lra).
    unfold Derived.Q_washout. lra.
Qed.

End DroopSteadyStates.

(** X9: where both divisions of [microalgaeDroop] are defined, the vector
    field vanishes at exactly two states: the washout state (no biomass,
    substrate at [S_in = 100], quota [Q_washout]) and the state with
    biomass [((100 - S_eq) / Q_eq, Q_eq, S_eq)], where
    [Q_eq = 17051/6925] and [S_eq = 153459/11484410]. *)
Theorem droop_steady_states :
  forall x q s t : R,
    q <> 0%R -> s <> (- MicroalgaeDroop.K_S)%R ->
    (MicroalgaeDroop.microalgaeDroop [x; q; s] t = Some [0%R; 0%R; 0%R] <->
     (x = Closed.X_ALG_eq /\ q = Closed.Q_eq /\ s = Closed.S_eq) \/
     (x = 0%R /\ q = Derived.Q_washout /\ s = 100%R)).
Proof.
  intros x q s t Hq Hs. split.
  - apply droop_steady_state_cases; assumption.
  - intros [(-> & -> & ->) | (-> & -> & ->)].
    + apply droop_equilibrium.
    + apply droop_washout.
Qed.

Lemma droop_steady_states_witness :
  MicroalgaeDroop.microalgaeDroop [0%R; Derived.Q_washout; 100%R] 0%R
  = Some [0%R; 0%R; 0%R].
Proof.
  apply (proj2 (droop_steady_states 0 Derived.Q_washout 100 0
                  ltac:(unfold Derived.Q_washout; lra)
                  ltac:(rewrite (proj1 (proj2 droop_constants)); lra))).
  right. repeat split.
Defined.

(** ** Droop's script: the derived series *)

Section DerivedSeries.
Context {A : Type} `{Scalar A}.

Lemma map2_with_map (op : A -> A -> A) (f : A -> A) (u : list A) :
  Numpy.map2 op u (map f u) = map (fun a => op a (f a)) u.
Proof.
  induction u as [| a u IH]; simpl; [reflexivity |]. f_equal. exact IH.
Qed.

(** The uptake series of the script is the uptake rate of the derivative
    function, entry by entry. *)
Lemma rho_series_map (S : list A) :
  MicroalgaeDroop.rho_series S = map MicroalgaeDroop.rho S.
Proof.
  unfold MicroalgaeDroop.rho_series, Numpy.scalar_mul, Numpy.array_div,
    Numpy.add_scalar.
  rewrite map2_with_map, map_map. reflexivity.
Qed.

Lemma m_dot23_map (S : list A) :
  MicroalgaeDroop.m_dot23 S
  = map (fun s => nmul MicroalgaeDroop.K_CO2 (MicroalgaeDroop.rho s)) S.
Proof.
  unfold MicroalgaeDroop.m_dot23, Numpy.scalar_mul.
  rewrite rho_series_map, map_map. reflexivity.
Qed.

End DerivedSeries.

(** X10: the CO2 series of the Droop script, [m_dot23 = K_CO2 * rho] with
    [rho] recomputed from the solved substrate, has one entry per sample,
    each [K_CO2] times the uptake rate that [microalgaeDroop] uses at that
    substrate value; on nonnegative substrate values every entry lies in
    [[0, K_CO2 * rho_max) = [0, 2.82)]. *)
Theorem co2_flow_series :
  (forall (A : Type) (SA : Scalar A) (S : list A),
     MicroalgaeDroop.rho_series S = map MicroalgaeDroop.rho S /\
     MicroalgaeDroop.m_dot23 S
     = map (fun s => nmul MicroalgaeDroop.K_CO2 (MicroalgaeDroop.rho s)) S /\
     length (MicroalgaeDroop.m_dot23 S) = length S) /\
  (MicroalgaeDroop.K_CO2 * MicroalgaeDroop.rho_max = 2.82)%R /\
  (forall S : list R,
     Forall (fun s => (0 <= s)%R) S ->
     Forall (fun m => (0 <= m < 2.82)%R) (MicroalgaeDroop.m_dot23 S)).
Proof.
  split; [| split].
  - intros A SA S. split; [apply rho_series_map |].
    split; [apply m_dot23_map |].
    rewrite m_dot23_map. apply length_map.
  - destruct droop_constants as (_ & _ & Er & _ & Ec & _).
    rewrite Er, Ec. lra.
  - intros S HS. rewrite m_dot23_map. apply Forall_map.
    eapply Forall_impl; [| exact HS].
    intros s Hs. cbv beta.
    destruct droop_constants as (_ & _ & _ & _ & Ec & _).
    change (@nmul R R_scalar) with Rmult. rewrite Ec.
    pose proof (droop_rho_range s Hs). lra.
Qed.

Lemma co2_flow_series_witness :
  Forall (fun m => (0 <= m < 2.82)%R)
    (MicroalgaeDroop.m_dot23 [0; 0.5; 100]%R).
Proof.
  apply (proj2 (proj2 co2_flow_series)).
  repeat constructor; lra.
Defined.

(** X11: along any solution of the Droop equations that stays where the
    divisions are defined, the nutrient balance [S + X_ALG Q] moves from
    its initial value towards [S_in] without ever crossing it or turning
    back: it stays between the initial value and [S_in]. *)
Theorem droop_balance_stays_between :
  forall (x0 q0 s0 T : R) (x q s : R -> R),
    ODE.solves MicroalgaeDroop.microalgaeDroop [x0; q0; s0] T [x; q; s] ->
    (forall t : R, (0 < t < T)%R ->
       q t <> 0%R /\ s t <> (- MicroalgaeDroop.K_S)%R) ->
    forall t : R, (0 <= t <= T)%R ->
      ((Closed.diagnostic x0 q0 s0 <= MicroalgaeDroop.S_in)%R ->
       (Closed.diagnostic x0 q0 s0
        <= Closed.diagnostic (x t) (q t) (s t) <= MicroalgaeDroop.S_in)%R) /\
      ((MicroalgaeDroop.S_in <= Closed.diagnostic x0 q0 s0)%R ->
       (MicroalgaeDroop.S_in
        <= Closed.diagnostic (x t) (q t) (s t)
        <= Closed.diagnostic x0 q0 s0)%R).
Proof.
  intros x0 q0 s0 T x q s Hsol _ t Ht.
  rewrite (droop_first_order x0 q0 s0 T x q s Hsol t Ht).
  apply relaxation_between. lra.
Qed.

Lemma droop_balance_stays_between_witness :
  (MicroalgaeDroop.S_in
   <= Closed.diagnostic Closed.X_ALG_eq Closed.Q_eq Closed.S_eq
   <= Closed.diagnostic Closed.X_ALG_eq Closed.Q_eq Closed.S_eq)%R.
Proof.
  assert (Hdom : Closed.Q_eq <> 0%R /\ Closed.S_eq <> (- MicroalgaeDroop.K_S)%R).
  { unfold Closed.Q_eq, Closed.S_eq. unfold_droop. split; lra. }
  assert (Hg : (MicroalgaeDroop.S_in
                <= Closed.diagnostic Closed.X_ALG_eq Closed.Q_eq Closed.S_eq)%R).
  { unfold Closed.diagnostic, Closed.X_ALG_eq, Closed.Q_eq, Closed.S_eq.
    unfold_droop. right. field. }
  assert (Ht : (0 <= 1 <= MicroalgaeDroop.t_final)%R)
    by (unfold MicroalgaeDroop.t_final; cbv [int of_Z R_scalar]; lra).
  apply (proj2 (droop_balance_stays_between
                  Closed.X_ALG_eq Closed.Q_eq Closed.S_eq
                  MicroalgaeDroop.t_final
                  (fun _ => Closed.X_ALG_eq) (fun _ => Closed.Q_eq)
                  (fun _ => Closed.S_eq)
                  (steady_solves MicroalgaeDroop.t_final)
                  (fun t _ => Hdom) 1%R Ht) Hg).
Defined.

(** ** The scripts: when unpacking and plotting succeed *)

Section PlotOrRaise.
Context {A : Type} `{Scalar A}.

Lemma transpose_length (X : list (list A)) :
  length (Numpy.transpose X)
  = match hd_error X with Some row => length row | None => 0%nat end.
Proof.
  destruct X as [| row X']; [reflexivity |].
  simpl. rewrite length_map, length_seq. reflexivity.
Qed.

Lemma plot_different_length (x y : list A) :
  length y <> length x -> plot x y = Raise "ValueError".
Proof.
  intro Hne. unfold plot.
  destruct (Nat.eqb_spec (length x) (length y)) as [E | _];
    [congruence | reflexivity].
Qed.

Lemma fits_dec (d : nat) (t : list A) (X : list (list A)) :
  Shape.fits d t X \/
  (hd_error X = None \/
   (exists row, hd_error X = Some row /\ length row <> d) \/
   (exists row, hd_error X = Some row /\ length row = d
                /\ length X <> length t)).
Proof.
  destruct X as [| row X']; [right; left; reflexivity |].
  destruct (Nat.eq_dec (length row) d) as [Hd | Hd].
  - destruct (Nat.eq_dec (length (row :: X')) (length t)) as [Hl | Hl].
    + left. exists row. repeat split; assumption.
    + right. right. right. exists row. repeat split; assumption.
  - right. right. left. exists row. split; [reflexivity | exact Hd].
Qed.

Lemma truck_plots_raise (t : list A) (X : list (list A)) :
  ~ Shape.fits 2 t X -> TransportTruck.plots t X = Raise "ValueError".
Proof.
  intro Hno. unfold TransportTruck.plots.
  destruct (fits_dec 2 t X) as [Hfit | [Hnil | [(row & Hhd & Hd) |
                                               (row & Hhd & Hd & Hl)]]].
  - contradiction.
  - destruct X; [reflexivity | discriminate].
  - pose proof (transpose_length X) as Hlen. rewrite Hhd in Hlen.
    destruct (Numpy.transpose X) as [| a [| b [| c l]]]; try reflexivity.
    simpl in Hlen. congruence.
  - rewrite (transpose_columns X row 2 Hhd Hd). cbn [map seq].
    rewrite plot_different_length by (rewrite column_length; exact Hl).
    reflexivity.
Qed.

Lemma droop_plots_raise (t : list A) (X : list (list A)) :
  ~ Shape.fits 3 t X -> MicroalgaeDroop.plots t X = Raise "ValueError".
Proof.
  intro Hno. unfold MicroalgaeDroop.plots.
  destruct (fits_dec 3 t X) as [Hfit | [Hnil | [(row & Hhd & Hd) |
                                               (row & Hhd & Hd & Hl)]]].
  - contradiction.
  - destruct X; [reflexivity | discriminate].
  - pose proof (transpose_length X) as Hlen. rewrite Hhd in Hlen.
    destruct (Numpy.transpose X) as [| a [| b [| c [| e l]]]];
      try reflexivity.
    simpl in Hlen. congruence.
  - rewrite (transpose_columns X row 3 Hhd Hd). cbn [map seq].
    rewrite plot_different_length by (rewrite column_length; exact Hl).
    reflexivity.
Qed.

Lemma incinerator_plots_raise (t : list A) (X : list (list A)) :
  ~ Shape.fits 6 t X -> Incinerator.plots t X = Raise "ValueError".
Proof.
  intro Hno. unfold Incinerator.plots.
  destruct (fits_dec 6 t X) as [Hfit | [Hnil | [(row & Hhd & Hd) |
                                               (row & Hhd & Hd & Hl)]]].
  - contradiction.
  - destruct X; [reflexivity | discriminate].
  - pose proof (transpose_length X) as Hlen. rewrite Hhd in Hlen.
    destruct (Numpy.transpose X)
      as [| a [| b [| c [| e [| f [| g [| h l]]]]]]]; try reflexivity.
    simpl in Hlen. congruence.
  - rewrite (transpose_columns X row 6 Hhd Hd). cbn [map seq].
    rewrite plot_different_length by (rewrite column_length; exact Hl).
    reflexivity.
Qed.

End PlotOrRaise.

(** X12: for a mesh that is not empty, the unpacking [... = X.T] and the
    figures of a script succeed exactly when the trajectory has as many
    columns as the script unpacks (6, 3, 2) and as many rows as the mesh;
    the figures are then the columns against the mesh (and, for Droop, the
    two derived series), and in every other case the script raises
    [ValueError]. *)
Theorem plots_succeed_iff_shape_fits :
  forall (A : Type) (SA : Scalar A) (t : list A) (X : list (list A)),
    t <> [] ->
    (Shape.fits 6 t X ->
     Incinerator.plots t X
     = Return [(t, Numpy.column 0 X); (t, Numpy.column 1 X);
               (t, Numpy.column 2 X); (t, Numpy.column 3 X);
               (t, Numpy.column 4 X); (t, Numpy.column 5 X)]) /\
    (~ Shape.fits 6 t X -> Incinerator.plots t X = Raise "ValueError") /\
    (Shape.fits 3 t X ->
     MicroalgaeDroop.plots t X
     = Return [(t, Numpy.column 0 X); (t, Numpy.column 1 X);
               (t, Numpy.column 2 X);
               (t, MicroalgaeDroop.m_dot23 (Numpy.column 2 X));
               (t, MicroalgaeDroop.debugging_variable (Numpy.column 0 X)
                     (Numpy.column 1 X) (Numpy.column 2 X))]) /\
    (~ Shape.fits 3 t X -> MicroalgaeDroop.plots t X = Raise "ValueError") /\
    (Shape.fits 2 t X ->
     TransportTruck.plots t X
     = Return [(t, Numpy.column 0 X); (t, Numpy.column 1 X)]) /\
    (~ Shape.fits 2 t X -> TransportTruck.plots t X = Raise "ValueError").
Proof.
  intros A SA t X _.
  split; [| split; [| split; [| split; [| split]]]].
  - intros (row & Hhd & Hd & Hl). apply (incinerator_plots t X row); assumption.
  - apply incinerator_plots_raise.
  - intros (row & Hhd & Hd & Hl). apply (droop_plots t X row); assumption.
  - apply droop_plots_raise.
  - intros (row & Hhd & Hd & Hl). apply (truck_plots t X row); assumption.
  - apply truck_plots_raise.
Qed.

Lemma plots_succeed_iff_shape_fits_witness :
  TransportTruck.plots [int 0; int 15] [[int 0; int 4]; [int 200; int 22]]
  = Return [([int 0; int 15], [int 0; int 200]);
            ([int 0; int 15], [int 4; int 22 : float])] /\
  TransportTruck.plots [int 0; int 15] [[int 0; int 4 : float]]
  = Raise "ValueError" /\
  Incinerator.plots [int 0; int 15] [[int 0; int 4]; [int 200; int 22 : float]]
  = Raise "ValueError".
Proof.
  split; [| split].
  - apply (proj1 (proj2 (proj2 (proj2 (proj2
             (plots_succeed_iff_shape_fits float float_scalar
                [int 0; int 15] [[int 0; int 4]; [int 200; int 22]]
                ltac:(discriminate))))))).
    eexists. repeat split.
  - apply (proj2 (proj2 (proj2 (proj2 (proj2
             (plots_succeed_iff_shape_fits float float_scalar
                [int 0; int 15] [[int 0; int 4]] ltac:(discriminate))))))).
    intros (row & Hhd & Hd & Hl). discriminate Hl.
  - apply (proj1 (proj2
             (plots_succeed_iff_shape_fits float float_scalar
                [int 0; int 15] [[int 0; int 4]; [int 200; int 22]]
                ltac:(discriminate)))).
    intros (row & Hhd & Hd & Hl). injection Hhd as <-. discriminate Hd.
Defined.

(** ** Truck: momentum and energy *)

(** X13: along any solution of the truck equations from [X_ini] the force
    [F] accounts for the motion: the gain of momentum is the impulse,
    [m_total (speed(t) - speed_ini) = F t], and the gain of kinetic energy
    is the work, [0.5 m_total (speed(t)^2 - speed_ini^2)
    = F (position(t) - position_ini)]. *)
Theorem truck_impulse_and_work :
  forall (T : R) (p s : R -> R),
    ODE.solves TransportTruck.transportTruck TransportTruck.X_ini T [p; s] ->
    forall t : R, (0 <= t <= T)%R ->
      (TransportTruck.m_total * (s t - TransportTruck.speed_ini)
       = TransportTruck.F * t)%R /\
      (Derived.kinetic_energy (s t)
       - Derived.kinetic_energy TransportTruck.speed_ini
       = TransportTruck.F * (p t - TransportTruck.position_ini))%R.
Proof.
  intros T p s Hsol t Ht.
  destruct (truck_solution_unique T [p; s] Hsol) as (p' & s' & E & Heq).
  injection E as <- <-. destruct (Heq t Ht) as [Ep Es].
  rewrite Ep, Es.
  unfold Derived.kinetic_energy, Closed.position, Closed.speed,
    Closed.acceleration.
  assert (Hm : (TransportTruck.m_total <> 0)%R).
  { unfold TransportTruck.m_total, TransportTruck.m_truck, TransportTruck.m_u.
    cbv [nadd int of_Z R_scalar]. lra. }
  assert (Hhalf : (0.5 = 1 / 2)%R) by lra.
  rewrite !Hhalf. split; field; exact Hm.
Qed.

Lemma truck_impulse_and_work_witness :
  (TransportTruck.m_total * (Closed.speed 15 - TransportTruck.speed_ini)
   = TransportTruck.F * 15)%R /\
  (Derived.kinetic_energy (Closed.speed 15)
   - Derived.kinetic_energy TransportTruck.speed_ini
   = TransportTruck.F * (Closed.position 15 - TransportTruck.position_ini))%R.
Proof.
  apply (truck_impulse_and_work 15 Closed.position Closed.speed
           (truck_closed_form_solves 15)).
  lra.
Defined.

(** ** Incinerator: the names of the module *)

(** X14: [c_p_m] is the only name of the incinerator's parameter block
    that is assigned more than once: every other assignment [name = value]
    of the block is the one in force when [incinerator] runs, and the
    names other than [c_p_m] are pairwise different. *)
Theorem only_c_p_m_is_rebound :
  (forall (x : string) (v : Z),
     In (x, v) Incinerator.assignments -> x <> "c_p_m" ->
     Incinerator.globals x = Some v) /\
  NoDup (filter (fun x => negb (String.eqb x "c_p_m")) Incinerator.names).
Proof.
  split.
  - intros x v Hin Hx. unfold Incinerator.assignments in Hin.
    simpl in Hin.
    repeat (destruct Hin as [E | Hin];
            [injection E as <- <-;
             first [reflexivity | exfalso; apply Hx; reflexivity] |]).
    contradiction.
  - vm_compute.
    repeat (constructor;
            [simpl; intro Hin;
             repeat (destruct Hin as [E | Hin]; [discriminate E |]);
             exact Hin |]).
    constructor.
Qed.

Lemma only_c_p_m_is_rebound_witness :
  Incinerator.globals "M_grate" = Some 500%Z.
Proof.
  apply (proj1 only_c_p_m_is_rebound).
  - unfold Incinerator.assignments. simpl. tauto.
  - discriminate.
Defined.

(** ** The scripts: what is drawn *)

Section Figures.
Context {A : Type} `{Scalar A}.

Lemma documented_fits (odeint : odeint_type A) (f : rhs A)
  (y0 t : list A) (mxstep : Z) (X : list (list A)) (info : infodict) :
  Contract.documented odeint -> t <> [] ->
  odeint f y0 t mxstep = Return (X, info) ->
  Shape.fits (length y0) t X.
Proof.
  intros [Hshape Hrow _] Ht E.
  destruct (Hshape _ _ _ _ _ _ E) as [Hlen Hrows].
  exists y0. split; [apply (Hrow _ _ _ _ _ _ E Ht) |].
  split; [reflexivity | exact Hlen].
Qed.

Lemma m_dot23_length (S : list A) :
  length (MicroalgaeDroop.m_dot23 S) = length S.
Proof. rewrite m_dot23_map. apply length_map. Qed.

Lemma debugging_variable_length (X_ALG Q S : list A) :
  length X_ALG = length S -> length Q = length S ->
  length (MicroalgaeDroop.debugging_variable X_ALG Q S) = length S.
Proof.
  intros HX HQ.
  unfold MicroalgaeDroop.debugging_variable, Numpy.array_add, Numpy.array_mul.
  rewrite map2_length; [reflexivity |].
  rewrite map2_length; congruence.
Qed.

End Figures.

(** X15: when the solver call returns and the result is as
    [integrate.odeint] documents it, the incinerator script draws six
    figures, the Droop script five and the truck script two, every one with
    the 1000 mesh times as abscissae and 1000 ordinates. *)
Theorem scripts_draw_full_series :
  forall (A : Type) (SA : Scalar A) (odeint : odeint_type A)
         (X : list (list A)) (info : infodict),
    Contract.documented odeint ->
    (Incinerator.numerical_solution odeint Incinerator.t_final
     = Return (X, info) ->
     exists figures,
       Incinerator.script odeint = Return figures /\
       length figures = 6%nat /\
       Forall (fun fig => fst fig = Incinerator.mesh Incinerator.t_final
                          /\ length (fst fig) = 1000%nat
                          /\ length (snd fig) = 1000%nat) figures) /\
    (MicroalgaeDroop.numerical_solution odeint MicroalgaeDroop.t_final
     = Return (X, info) ->
     exists figures,
       MicroalgaeDroop.script odeint = Return figures /\
       length figures = 5%nat /\
       Forall (fun fig => fst fig = MicroalgaeDroop.mesh MicroalgaeDroop.t_final
                          /\ length (fst fig) = 1000%nat
                          /\ length (snd fig) = 1000%nat) figures) /\
    (TransportTruck.numerical_solution odeint TransportTruck.t_final
     = Return (X, info) ->
     exists figures,
       TransportTruck.script odeint = Return figures /\
       length figures = 2%nat /\
       Forall (fun fig => fst fig = TransportTruck.mesh TransportTruck.t_final
                          /\ length (fst fig) = 1000%nat
                          /\ length (snd fig) = 1000%nat) figures).
Proof.
  intros A SA odeint X info Hdoc.
  assert (Hmesh : forall (start stop : A),
             Numpy.linspace start stop 1000 <> []).
  { intros start stop E. apply (f_equal (@length A)) in E.
    rewrite linspace_length in E. discriminate. }
  split; [| split]; intro E.
  - destruct (documented_fits _ _ _ _ _ _ _ Hdoc (Hmesh _ _) E)
      as (row & Hhd & Hd & Hl).
    eexists. split.
    + unfold Incinerator.script, Incinerator.run. rewrite E. cbn [obind fst].
      apply (incinerator_plots _ X row Hhd Hd Hl).
    + unfold Incinerator.mesh in *. rewrite linspace_length in Hl.
      split; [reflexivity |].
      repeat constructor; cbn [fst snd];
        first [apply linspace_length | rewrite column_length; exact Hl].
  - destruct (documented_fits _ _ _ _ _ _ _ Hdoc (Hmesh _ _) E)
      as (row & Hhd & Hd & Hl).
    eexists. split.
    + unfold MicroalgaeDroop.script, MicroalgaeDroop.run. rewrite E.
      cbn [obind fst]. apply (droop_plots _ X row Hhd Hd Hl).
    + unfold MicroalgaeDroop.mesh in *. rewrite linspace_length in Hl.
      split; [reflexivity |].
      repeat constructor; cbn [fst snd];
        first [apply linspace_length
              | rewrite column_length; exact Hl
              | rewrite m_dot23_length, column_length; exact Hl
              | rewrite debugging_variable_length;
                rewrite ?column_length; first [exact Hl | reflexivity]].
  - destruct (documented_fits _ _ _ _ _ _ _ Hdoc (Hmesh _ _) E)
      as (row & Hhd & Hd & Hl).
    eexists. split.
    + unfold TransportTruck.script, TransportTruck.run. rewrite E.
      cbn [obind fst]. apply (truck_plots _ X row Hhd Hd Hl).
    + unfold TransportTruck.mesh in *. rewrite linspace_length in Hl.
      split; [reflexivity |].
      repeat constructor; cbn [fst snd];
        first [apply linspace_length | rewrite column_length; exact Hl].
Qed.

Lemma scripts_draw_full_series_witness :
  exists figures : list (series float),
    MicroalgaeDroop.script Contract.hold_solver = Return figures /\
    length figures = 5%nat /\
    Forall (fun fig => fst fig = MicroalgaeDroop.mesh MicroalgaeDroop.t_final
                       /\ length (fst fig) = 1000%nat
                       /\ length (snd fig) = 1000%nat) figures.
Proof.
  exact (proj1 (proj2 (scripts_draw_full_series float float_scalar
                         Contract.hold_solver _ _ hold_solver_documented))
           eq_refl).
Defined.
